(** * Bit-banged I2C master (experimental/devices/bitbang/i2c.go)

    A shallow embedding of the bit-banged I2C bus master and the properties
    of its start/stop generator, byte write/read routines and the two
    transaction shapes [Tx] and [ReadRepeatedStart].

    The master talks to the outside world only through two [gpio.PinIO]
    handles and [time.Sleep].  Every such call is recorded, in program order,
    in a history of events; what a call returns (an error for [In]/[Out], a
    level for [Read]) is decided by the pin environment from the history so
    far.  Quantifying over the environment covers every deterministic
    behaviour of pins and slave. *)

From Stdlib Require Import ZArith List String Bool Lia.
Import ListNotations.
Local Open Scope string_scope.
Local Open Scope list_scope.
Local Open Scope Z_scope.

(** ** Values of the gpio, time and errors packages *)

(** [gpio.Level] is a Go [bool]: [Low] is [false], [High] is [true]. *)
Definition Level := bool.
Definition Low : Level := false.
Definition High : Level := true.

(** [gpio.Pull] and [gpio.Edge], enumerations of the gpio package. *)
Inductive Pull := PullNoChange | Float | PullDown | PullUp.
Inductive Edge := NoEdge | RisingEdge | FallingEdge | BothEdges.

(** A pin handle; pins are told apart by name. *)
Definition PinIO := string.

(** Go's [error]: [nil] is [None]. *)
Inductive error := errors_New (text : string).

Definition ErrInvalidAddress : error := errors_New "bitbang-i2c: invalid address".
Definition ErrNACK : error := errors_New "bitbang-i2c: got NACK".

(** [time.Duration] counts nanoseconds. *)
Definition time_Microsecond : Z := 1000.

(** ** Histories *)

Inductive event :=
| EvIn (p : PinIO) (pull : Pull) (edge : Edge)   (* p.In(pull, edge) *)
| EvOut (p : PinIO) (l : Level)                  (* p.Out(l) *)
| EvRead (p : PinIO)                             (* p.Read() *)
| EvSleep (d : Z).                               (* time.Sleep(d) *)

Definition history := list event.

(** The behaviour of the pins: the answer to each call, given everything
    the master did before it. *)
Record PinEnv := {
  in_result : history -> PinIO -> Pull -> Edge -> option error;
  out_result : history -> PinIO -> Level -> option error;
  read_result : history -> PinIO -> Level
}.

(** ** Machine integers *)

Definition u8 (z : Z) : Z := z mod 256.
Definition u16 (z : Z) : Z := z mod 65536.

(** SkipAddr can be used to skip the address from being sent. *)
Definition SkipAddr : Z := 0xFFFF.

(** ** The computation monad: history passing, [None] for a loop that ran
    out of fuel *)

Definition M (A : Type) : Type := history -> option (A * history).

Definition ret {A} (a : A) : M A := fun h => Some (a, h).

Definition bind {A B} (m : M A) (k : A -> M B) : M B :=
  fun h => match m h with
           | Some (a, h') => k a h'
           | None => None
           end.

Definition diverge {A} : M A := fun _ => None.

Notation "x <- m ;; k" := (bind m (fun x => k))
  (at level 61, m at next level, right associativity).
Notation "' pat <- m ;; k" := (bind m (fun x => match x with pat => k end))
  (at level 61, pat pattern, m at next level, right associativity).
Notation "m ;; k" := (bind m (fun _ => k))
  (at level 61, right associativity).

(** [for x := x0; x < x0+n; x++ { s = body x s }] *)
Fixpoint for_range {S} (n : nat) (x : Z) (body : Z -> S -> M S) (s : S) : M S :=
  match n with
  | O => ret s
  | Datatypes.S n' => s' <- body x s ;; for_range n' (x + 1) body s'
  end.

(** The bus object.  The mutex is not represented: calls are sequential. *)
Record I2C := {
  scl : PinIO;      (* Clock line *)
  sda : PinIO;      (* Data line *)
  halfCycle : Z
}.

Section Bus.

Variable env : PinEnv.

(** Iterations granted to each clock-stretching loop. *)
Variable fuel : nat.

(** [physic.Frequency.Period], from the physic package. *)
Variable Period : Z -> Z.

(** *** Pin calls *)

Definition pin_In (p : PinIO) (pull : Pull) (edge : Edge) : M (option error) :=
  fun h => Some (in_result env h p pull edge, h ++ [EvIn p pull edge]).

Definition pin_Out (p : PinIO) (l : Level) : M (option error) :=
  fun h => Some (out_result env h p l, h ++ [EvOut p l]).

Definition pin_Read (p : PinIO) : M Level :=
  fun h => Some (read_result env h p, h ++ [EvRead p]).

Definition time_Sleep (d : Z) : M unit :=
  fun h => Some (tt, h ++ [EvSleep d]).

(** *** New *)

Definition New (clk data : PinIO) (f : Z) : M (error + I2C) :=
  e1 <- pin_In clk PullUp NoEdge ;;
  match e1 with Some err => ret (inl err) | None =>
  e2 <- pin_Out clk High ;;
  match e2 with Some err => ret (inl err) | None =>
  e3 <- pin_In data PullUp NoEdge ;;
  match e3 with Some err => ret (inl err) | None =>
  e4 <- pin_Out data High ;;
  match e4 with Some err => ret (inl err) | None =>
  ret (inr {| scl := clk; sda := data; halfCycle := Z.quot (Period f) 2 |})
  end end end end.

(** *** Open-drain emulation *)

Definition writeSdaOpenDrain (i : I2C) (b : bool) : M (option error) :=
  if b then pin_In (sda i) PullUp NoEdge else pin_Out (sda i) false.

Definition writeSclOpenDrain (i : I2C) (b : bool) : M (option error) :=
  if b then pin_In (scl i) PullUp NoEdge else pin_Out (scl i) false.

(** *** sleepHalfCycle: a fixed microsecond; the spin on [halfCycle] sits
    after the [return] *)

Definition sleepHalfCycle (i : I2C) : M unit :=
  time_Sleep time_Microsecond.

(** *** SetSpeed *)

Definition SetSpeed (i : I2C) (f : Z) : I2C * option error :=
  ({| scl := scl i; sda := sda i; halfCycle := Z.quot (Period f) 2 |}, None).

(** *** Close, SCL, SDA *)

Definition Close (i : I2C) : option error := None.

Definition SCL (i : I2C) : PinIO := scl i.

Definition SDA (i : I2C) : PinIO := sda i.

(** *** start and stop *)

Definition start (i : I2C) : M unit :=
  writeSdaOpenDrain i true ;;
  writeSclOpenDrain i true ;;
  writeSdaOpenDrain i false ;;
  sleepHalfCycle i ;;
  writeSclOpenDrain i false ;;
  ret tt.

Definition stop (i : I2C) : M unit :=
  pin_Out (scl i) Low ;;
  sleepHalfCycle i ;;
  pin_Out (scl i) High ;;
  sleepHalfCycle i ;;
  pin_Out (sda i) High ;;
  sleepHalfCycle i.

(** *** writeByte *)

(** [b & byte(1<<byte(7-x)) != 0] *)
Definition bit_of (b x : Z) : bool :=
  negb (Z.land b (u8 (Z.shiftl 1 (u8 (7 - x)))) =? 0).

Definition write_bit (i : I2C) (b : Z) (x : Z) (_ : unit) : M unit :=
  writeSdaOpenDrain i (bit_of b x) ;;
  sleepHalfCycle i ;;
  writeSclOpenDrain i true ;;
  sleepHalfCycle i ;;
  writeSclOpenDrain i false ;;
  ret tt.

(** [for i.scl.Read() == gpio.Low { i.sleepHalfCycle() }] *)
Fixpoint clock_stretch (n : nat) (i : I2C) : M unit :=
  match n with
  | O => diverge
  | Datatypes.S n' =>
      l <- pin_Read (scl i) ;;
      if Bool.eqb l Low then sleepHalfCycle i ;; clock_stretch n' i
      else ret tt
  end.

Definition writeByte (i : I2C) (b : Z) : M (bool * option error) :=
  sleepHalfCycle i ;;
  for_range 8 0 (write_bit i b) tt ;;
  sleepHalfCycle i ;;
  writeSclOpenDrain i true ;;
  writeSdaOpenDrain i true ;;
  clock_stretch fuel i ;;
  l <- pin_Read (sda i) ;;
  let ack := Bool.eqb l Low in
  sleepHalfCycle i ;;
  writeSclOpenDrain i false ;;
  sleepHalfCycle i ;;
  ret (ack, None).

(** *** readByte *)

Definition read_bit (i : I2C) (x : Z) (b : Z) : M Z :=
  sleepHalfCycle i ;;
  writeSclOpenDrain i true ;;
  sleepHalfCycle i ;;
  l <- pin_Read (sda i) ;;
  let b := if Bool.eqb l High then Z.lor b (u8 (Z.shiftl (u8 1) (u8 (7 - x)))) else b in
  writeSclOpenDrain i false ;;
  ret b.

Definition readByte (i : I2C) : M Z :=
  let b := 0 in
  pin_In (sda i) PullUp NoEdge ;;
  b <- for_range 8 0 (read_bit i) b ;;
  sleepHalfCycle i ;;
  writeSdaOpenDrain i false ;;
  writeSclOpenDrain i true ;;
  sleepHalfCycle i ;;
  ret b.

(** *** Transactions *)

(** [ack, err := i.writeByte(b); if err != nil { return err };
     if !ack { return NACK }] *)
Definition write_checked (i : I2C) (b : Z) : M (option error) :=
  '(ack, err) <- writeByte i b ;;
  match err with
  | Some e => ret (Some e)
  | None => if negb ack then ret (Some ErrNACK) else ret None
  end.

(** [for _, b := range w { ... }] *)
Fixpoint write_all (i : I2C) (w : list Z) : M (option error) :=
  match w with
  | [] => ret None
  | b :: w' =>
      e <- write_checked i b ;;
      match e with
      | Some err => ret (Some err)
      | None => write_all i w'
      end
  end.

(** [for x := range r { r[x] = i.readByte() }]; the result is the new
    contents of [r]. *)
Fixpoint read_all (i : I2C) (r : list Z) : M (list Z) :=
  match r with
  | [] => ret []
  | _ :: r' => b <- readByte i ;; bs <- read_all i r' ;; ret (b :: bs)
  end.

(** The statements of [Tx] between [defer i.stop()] and the function's end.
    The second component is the contents of [r] at return. *)
Definition Tx_body (i : I2C) (addr : Z) (w r : list Z) : M (option error * list Z) :=
  e <- (if negb (addr =? SkipAddr) then
          if addr >? 0xFF then ret (Some ErrInvalidAddress)
          else
            let addr := u16 (Z.shiftl addr 1) in
            let addr := if (Z.of_nat (List.length r) =? 0) then Z.lor addr 1 else addr in
            write_checked i (u8 addr)
        else ret None) ;;
  match e with
  | Some err => ret (Some err, r)
  | None =>
      e <- write_all i w ;;
      match e with
      | Some err => ret (Some err, r)
      | None => r' <- read_all i r ;; ret (None, r')
      end
  end.

Definition Tx (i : I2C) (addr : Z) (w r : list Z) : M (option error * list Z) :=
  start i ;;
  res <- Tx_body i addr w r ;;
  stop i ;;                       (* defer i.stop() *)
  ret res.

(** The statements of [ReadRepeatedStart] after [defer i.stop()]. *)
Definition ReadRepeatedStart_body (i : I2C) (addr : Z) (w r : list Z)
  : M (option error * list Z) :=
  '(e, addr) <- (if negb (addr =? SkipAddr) then
                   if addr >? 0xFF then ret (Some ErrInvalidAddress, addr)
                   else
                     let addr := u16 (Z.shiftl addr 1) in
                     e <- write_checked i (u8 addr) ;;
                     ret (e, addr)
                 else ret (None, addr)) ;;
  match e with
  | Some err => ret (Some err, r)
  | None =>
      e <- write_all i w ;;
      match e with
      | Some err => ret (Some err, r)
      | None =>
          (* Here is the extra start needed to start reading data *)
          start i ;;
          e <- (if negb (addr =? SkipAddr) then
                  if addr >? 0xFF then ret (Some ErrInvalidAddress)
                  else
                    let addr := Z.lor addr 1 in
                    write_checked i (u8 addr)
                else ret None) ;;
          match e with
          | Some err => ret (Some err, r)
          | None => r' <- read_all i r ;; ret (None, r')
          end
      end
  end.

Definition ReadRepeatedStart (i : I2C) (addr : Z) (w r : list Z)
  : M (option error * list Z) :=
  (* Battery sleeps so wake it up *)
  start i ;;
  sleepHalfCycle i ;;
  stop i ;;
  sleepHalfCycle i ;;
  start i ;;
  res <- ReadRepeatedStart_body i addr w r ;;
  stop i ;;                       (* defer i.stop() *)
  ret res.

End Bus.

(** ** What is observed of a history *)

(** Equality test on events (level compared first, then the pin). *)
Definition Pull_eqb (a b : Pull) : bool :=
  match a, b with
  | PullNoChange, PullNoChange | Float, Float
  | PullDown, PullDown | PullUp, PullUp => true
  | _, _ => false
  end.

Definition Edge_eqb (a b : Edge) : bool :=
  match a, b with
  | NoEdge, NoEdge | RisingEdge, RisingEdge
  | FallingEdge, FallingEdge | BothEdges, BothEdges => true
  | _, _ => false
  end.

Definition event_eqb (a b : event) : bool :=
  match a, b with
  | EvIn p pu ed, EvIn q pv ee => Pull_eqb pu pv && Edge_eqb ed ee && String.eqb p q
  | EvOut p l, EvOut q m => Bool.eqb l m && String.eqb p q
  | EvRead p, EvRead q => String.eqb p q
  | EvSleep d, EvSleep e => d =? e
  | _, _ => false
  end.

(** [prefixb p t]: the history [t] starts with the events [p]. *)
Fixpoint prefixb (p t : history) : bool :=
  match p, t with
  | [], _ => true
  | _ :: _, [] => false
  | a :: p', b :: t' => event_eqb a b && prefixb p' t'
  end.

(** Number of positions of [t] at which the pattern [p] occurs. *)
Fixpoint occurrences (p t : history) : nat :=
  match t with
  | [] => O
  | _ :: t' => ((if prefixb p t then 1 else 0) + occurrences p t')%nat
  end.

(** What the master last asked of a pin. *)
Inductive Mode := Input (pull : Pull) | Output (l : Level).

Fixpoint last_drive_from (p : PinIO) (h : history) (m : option Mode) : option Mode :=
  match h with
  | [] => m
  | EvIn q pull _ :: h' =>
      last_drive_from p h' (if String.eqb p q then Some (Input pull) else m)
  | EvOut q l :: h' =>
      last_drive_from p h' (if String.eqb p q then Some (Output l) else m)
  | _ :: h' => last_drive_from p h' m
  end.

Definition last_drive (p : PinIO) (h : history) : option Mode :=
  last_drive_from p h None.

(** The line is high: released to its pull-up, or driven high. *)
Definition line_high (p : PinIO) (h : history) : bool :=
  match last_drive p h with
  | Some (Input PullUp) | Some (Output true) => true
  | _ => false
  end.

(** A direct output-high drive. *)
Definition is_high_drive (e : event) : bool :=
  match e with
  | EvOut _ true => true
  | _ => false
  end.

Definition is_sleep (e : event) : bool :=
  match e with
  | EvSleep _ => true
  | _ => false
  end.

Definition count_sleeps (h : history) : nat := List.length (filter is_sleep h).

(** ** The event sequences of the protocol phases *)

Definition start_events (i : I2C) : history :=
  [ EvIn (sda i) PullUp NoEdge; EvIn (scl i) PullUp NoEdge;
    EvOut (sda i) Low; EvSleep time_Microsecond; EvOut (scl i) Low ].

Definition stop_events (i : I2C) : history :=
  [ EvOut (scl i) Low; EvSleep time_Microsecond;
    EvOut (scl i) High; EvSleep time_Microsecond;
    EvOut (sda i) High; EvSleep time_Microsecond ].

Definition wake_events (i : I2C) : history :=
  start_events i ++ [EvSleep time_Microsecond] ++ stop_events i
               ++ [EvSleep time_Microsecond].

(** Number of stop conditions in a history. *)
Definition stop_count (i : I2C) (h : history) : nat :=
  occurrences (stop_events i) h.

Definition sda_drive (i : I2C) (b : bool) : event :=
  if b then EvIn (sda i) PullUp NoEdge else EvOut (sda i) Low.

(** One clock pulse of a written bit. *)
Definition write_bit_events (i : I2C) (b : Z) (x : Z) : history :=
  [ sda_drive i (Z.testbit b (7 - x)); EvSleep time_Microsecond;
    EvIn (scl i) PullUp NoEdge; EvSleep time_Microsecond; EvOut (scl i) Low ].

(** [n] polls of the clock that found it low, each followed by a wait. *)
Definition polls (i : I2C) (n : nat) : history :=
  List.concat (repeat [EvRead (scl i); EvSleep time_Microsecond] n).

(** [writeByte] up to the release of both lines in the 9th clock. *)
Definition writeByte_prefix (i : I2C) (b : Z) : history :=
  [EvSleep time_Microsecond]
  ++ flat_map (write_bit_events i b) [0; 1; 2; 3; 4; 5; 6; 7]
  ++ [ EvSleep time_Microsecond; EvIn (scl i) PullUp NoEdge;
       EvIn (sda i) PullUp NoEdge ].

(** [writeByte] from the poll that finds the clock high. *)
Definition writeByte_suffix (i : I2C) : history :=
  [ EvRead (scl i); EvRead (sda i); EvSleep time_Microsecond;
    EvOut (scl i) Low; EvSleep time_Microsecond ].

Definition writeByte_events (i : I2C) (b : Z) (n : nat) : history :=
  writeByte_prefix i b ++ polls i n ++ writeByte_suffix i.

(** The events of writing the bytes [bs], the k-th stretched [nth k ns 0]
    half-cycles. *)
Fixpoint writes_events (i : I2C) (bs : list Z) (ns : list nat) : history :=
  match bs with
  | [] => []
  | b :: bs' => writeByte_events i b (hd O ns) ++ writes_events i bs' (tl ns)
  end.

(** One clock pulse of a read bit. *)
Definition read_pulse (i : I2C) : history :=
  [ EvSleep time_Microsecond; EvIn (scl i) PullUp NoEdge;
    EvSleep time_Microsecond; EvRead (sda i); EvOut (scl i) Low ].

(** The 9th clock of [readByte]: data driven low. *)
Definition read_ack_events (i : I2C) : history :=
  [ EvSleep time_Microsecond; EvOut (sda i) Low;
    EvIn (scl i) PullUp NoEdge; EvSleep time_Microsecond ].

Definition readByte_events (i : I2C) : history :=
  [EvIn (sda i) PullUp NoEdge]
  ++ List.concat (repeat (read_pulse i) 8)
  ++ read_ack_events i.

(** The history at which [readByte], called at [h], samples the data line
    in its x-th clock pulse. *)
Definition sample_point (i : I2C) (h : history) (x : nat) : history :=
  h ++ [EvIn (sda i) PullUp NoEdge]
    ++ List.concat (repeat (read_pulse i) x)
    ++ [ EvSleep time_Microsecond; EvIn (scl i) PullUp NoEdge;
         EvSleep time_Microsecond ].

(** Bits 7, 6, ..., 0 of a byte. *)
Definition bits_msb_first (b : Z) : list bool :=
  map (fun x => Z.testbit b (7 - Z.of_nat x)) (seq 0 8).

(** No event of the history is a direct high drive. *)
Definition open_drain_b (h : history) : bool :=
  forallb (fun e => negb (is_high_drive e)) h.

(** The start condition in the words of the specification: both lines
    high (in either order), a wait, data low, a wait, clock low. *)
Definition spec_start_events (i : I2C) (clock_first : bool) : history :=
  (if clock_first
   then [EvIn (scl i) PullUp NoEdge; EvIn (sda i) PullUp NoEdge]
   else [EvIn (sda i) PullUp NoEdge; EvIn (scl i) PullUp NoEdge])
  ++ [ EvSleep time_Microsecond; EvOut (sda i) Low;
       EvSleep time_Microsecond; EvOut (scl i) Low ].

(** ** Simulated pins and slaves *)

Definition bus : I2C := {| scl := "GPIO24"; sda := "GPIO23"; halfCycle := 50000 |}.

(** Pins that never fail; the clock is never stretched and the data line
    always reads low: every byte is acknowledged, every byte read is 0. *)
Definition ack_slave : PinEnv := {|
  in_result := fun _ _ _ _ => None;
  out_result := fun _ _ _ => None;
  read_result := fun _ p => if String.eqb p (scl bus) then High else Low
|}.

(** The data line is never pulled low: no byte is acknowledged. *)
Definition nack_slave : PinEnv := {|
  in_result := fun _ _ _ _ => None;
  out_result := fun _ _ _ => None;
  read_result := fun _ _ => High
|}.

(** Every direction change and level drive fails; reads as [ack_slave]. *)
Definition failing_pins : PinEnv := {|
  in_result := fun _ _ _ _ => Some (errors_New "gpio: pin failure");
  out_result := fun _ _ _ => Some (errors_New "gpio: pin failure");
  read_result := read_result ack_slave
|}.

(** The clock never comes up: it reads low for ever. *)
Definition stuck_slave : PinEnv := {|
  in_result := fun _ _ _ _ => None;
  out_result := fun _ _ _ => None;
  read_result := fun _ _ => Low
|}.

(** Reads of the data line so far. *)
Definition data_reads (h : history) : nat :=
  List.length
    (filter (fun e => match e with
                      | EvRead p => String.eqb p (sda bus)
                      | _ => false
                      end) h).

(** A slave that pulls the data line low on the first [n] reads of it
    only: it acknowledges [n] bytes. *)
Definition acks_first (n : nat) : PinEnv := {|
  in_result := fun _ _ _ _ => None;
  out_result := fun _ _ _ => None;
  read_result := fun h p =>
    if String.eqb p (scl bus) then High else Nat.leb n (data_reads h)
|}.

(** A slave that shifts the byte [v] out on the data line, most
    significant bit first, one bit per read of the line. *)
Definition shifting_slave (v : Z) : PinEnv := {|
  in_result := fun _ _ _ _ => None;
  out_result := fun _ _ _ => None;
  read_result := fun h p =>
    if String.eqb p (scl bus) then High
    else Z.testbit v (7 - Z.of_nat (data_reads h mod 8))
|}.

(** Half-cycle waits since the master last released the clock. *)
Definition waits_since_release (h : history) : nat :=
  fold_left (fun n e =>
               match e with
               | EvIn p _ _ => if String.eqb p (scl bus) then O else n
               | EvSleep _ => Datatypes.S n
               | _ => n
               end) h O.

(** A slave that holds the clock low for [n] half-cycles after each
    release, and acknowledges. *)
Definition stretching_slave (n : nat) : PinEnv := {|
  in_result := fun _ _ _ _ => None;
  out_result := fun _ _ _ => None;
  read_result := fun h p =>
    if String.eqb p (scl bus) then Nat.leb n (waits_since_release h) else Low
|}.

(** ** Predicates used in the statements *)

(** No direct high drive anywhere in the history. *)
Definition open_drain (h : history) : Prop := open_drain_b h = true.

(** The errors of the bus protocol itself; [None] is success. *)
Definition is_bus_error (e : option error) : Prop :=
  e = None \/ e = Some ErrNACK \/ e = Some ErrInvalidAddress.

(** The slave releases the clock before a stretching loop runs out of
    fuel, wherever the loop starts. *)
Definition responsive (env : PinEnv) (i : I2C) (fuel : nat) : Prop :=
  forall h, exists n,
    (n < fuel)%nat /\ read_result env (h ++ polls i n) (scl i) = High.

(** Invariant of the read loop: after [x] pulses, bit [j] of the
    accumulator holds the sample of pulse [7 - j], for [8 - x <= j <= 7]. *)
Definition read_inv env i h (x : nat) (b : Z) : Prop :=
  forall j : nat,
    Z.testbit b (Z.of_nat j) =
    if (Nat.leb (8 - x) j && Nat.leb j 7)%bool
    then read_result env (sample_point i h (7 - j)) (sda i)
    else false.

(** The two transaction shapes. *)
Inductive transaction := StandardTx | RepeatedStart.

Definition run_transaction (t : transaction) env fuel i addr w r :
  M (option error * list Z) :=
  match t with
  | StandardTx => Tx env fuel i addr w r
  | RepeatedStart => ReadRepeatedStart env fuel i addr w r
  end.

(** Stop conditions issued by one call. *)
Definition stops_issued (t : transaction) : nat :=
  match t with
  | StandardTx => 1
  | RepeatedStart => 2
  end.

(** Two environments answer every read alike; two bus objects name the
    same pins. *)
Definition same_reads (env1 env2 : PinEnv) : Prop :=
  forall h p, read_result env1 h p = read_result env2 h p.

Definition same_pins (i j : I2C) : Prop := scl i = scl j /\ sda i = sda j.

(** ** The phases of a transaction, as seen by the slave *)

(** From [h] on, the clock reads low on [n] polls and high on the next. *)
Definition stretched (env : PinEnv) (i : I2C) (h : history) (n : nat) : Prop :=
  (forall k, (k < n)%nat -> read_result env (h ++ polls i k) (scl i) = Low)
  /\ read_result env (h ++ polls i n) (scl i) = High.

(** The level of the data line decides the acknowledgement of byte [b],
    written from [h] on with [n] stretched polls. *)
Definition acked (env : PinEnv) (i : I2C) (h : history) (b : Z) (n : nat) : bool :=
  Bool.eqb
    (read_result env
       (h ++ writeByte_prefix i b ++ polls i n ++ [EvRead (scl i)]) (sda i))
    Low.

(** Every byte of [bs], written from [h] on with the stretches [ns], sees
    the clock released and is acknowledged. *)
Fixpoint write_phase (env : PinEnv) (i : I2C) (bs : list Z) (ns : list nat)
         (h : history) : Prop :=
  match bs with
  | [] => True
  | b :: bs' =>
      stretched env i (h ++ writeByte_prefix i b) (hd O ns)
      /\ acked env i h b (hd O ns) = true
      /\ write_phase env i bs' (tl ns) (h ++ writeByte_events i b (hd O ns))
  end.

(** The bytes of [bs] before index [j] are acknowledged and byte [j] is
    written and not acknowledged. *)
Definition nacked_at (env : PinEnv) (i : I2C) (bs : list Z) (ns : list nat)
           (h : history) (j : nat) : Prop :=
  (j < List.length bs)%nat
  /\ write_phase env i (firstn j bs) ns h
  /\ acked env i (h ++ writes_events i (firstn j bs) ns)
           (nth j bs 0) (nth j ns O) = false.

(** The slave never holds the clock. *)
Definition never_stretches (env : PinEnv) (i : I2C) : Prop :=
  forall h, read_result env h (scl i) = High.

(** The slave (or a fault) holds the clock low for ever. *)
Definition clock_stuck_low (env : PinEnv) (i : I2C) : Prop :=
  forall h, read_result env h (scl i) = Low.

(** The levels of the data line at the eight sample points of a
    [readByte] called at [h]. *)
Definition samples (env : PinEnv) (i : I2C) (h : history) : list bool :=
  map (fun x => read_result env (sample_point i h x) (sda i)) (seq 0 8).

(** The number whose binary digits, most significant first, are [bs]. *)
Definition byte_of_bits (bs : list bool) : Z :=
  fold_left (fun acc (b : bool) => 2 * acc + (if b then 1 else 0)) bs 0.

(** The bytes that [n] successive [readByte] calls return from [h] on. *)
Fixpoint reads (env : PinEnv) (i : I2C) (n : nat) (h : history) : list Z :=
  match n with
  | O => []
  | S n' => byte_of_bits (samples env i h)
              :: reads env i n' (h ++ readByte_events i)
  end.

(** The events of [n] successive [readByte] calls. *)
Definition reads_events (i : I2C) (n : nat) : history :=
  List.concat (repeat (readByte_events i) n).

(** The outcome [(e, r')] and the final history [h1] of writing the
    bytes [bs] from [h0] on and then reading into [r]: either every byte
    is acknowledged and one byte is read per slot of [r], or the write
    stops with NACK at the first byte that is not acknowledged and [r] is
    left as it was. *)
Definition transfer_outcome (env : PinEnv) (i : I2C) (bs r : list Z)
           (h0 : history) (e : option error) (r' : list Z) (h1 : history)
  : Prop :=
  exists ns,
    (e = None
     /\ write_phase env i bs ns h0
     /\ r' = reads env i (List.length r) (h0 ++ writes_events i bs ns)
     /\ h1 = h0 ++ writes_events i bs ns ++ reads_events i (List.length r))
    \/ (exists j,
           nacked_at env i bs ns h0 j
           /\ e = Some ErrNACK /\ r' = r
           /\ h1 = h0 ++ writes_events i (firstn (S j) bs) ns).

(** The same for a repeated start: the bytes [bs1] are written from [h0]
    on; unless one of them is not acknowledged, a second start condition
    follows, then the bytes [bs2] and the reads. *)
Definition repeated_start_outcome (env : PinEnv) (i : I2C) (bs1 bs2 r : list Z)
           (h0 : history) (e : option error) (r' : list Z) (h1 : history)
  : Prop :=
  exists ns,
    (exists j,
        nacked_at env i bs1 ns h0 j
        /\ e = Some ErrNACK /\ r' = r
        /\ h1 = h0 ++ writes_events i (firstn (S j) bs1) ns)
    \/ (write_phase env i bs1 ns h0
        /\ transfer_outcome env i bs2 r
             (h0 ++ writes_events i bs1 ns ++ start_events i) e r' h1).

(** The four pin calls of [New], in order. *)
Definition New_events (clk data : PinIO) : history :=
  [ EvIn clk PullUp NoEdge; EvOut clk High;
    EvIn data PullUp NoEdge; EvOut data High ].

(** What the environment answers to the k-th pin call of [New] started at
    [h], the earlier ones having been issued. *)
Definition New_answer (env : PinEnv) (clk data : PinIO) (h : history) (k : nat)
  : option error :=
  match k with
  | 0%nat => in_result env h clk PullUp NoEdge
  | 1%nat => out_result env (h ++ firstn 1 (New_events clk data)) clk High
  | 2%nat => in_result env (h ++ firstn 2 (New_events clk data)) data PullUp NoEdge
  | _ => out_result env (h ++ firstn 3 (New_events clk data)) data High
  end.

(** The first of the answers [k], [k + 1], ..., [k + n - 1] that is an
    error, with its index. *)
Fixpoint first_error (answer : nat -> option error) (k n : nat)
  : option (nat * error) :=
  match n with
  | O => None
  | S n' =>
      match answer k with
      | Some err => Some (k, err)
      | None => first_error answer (S k) n'
      end
  end.




(** The slave acknowledges every byte, whenever it is written. *)
Definition always_acks (env : PinEnv) (i : I2C) : Prop :=
  forall h b n, acked env i h b n = true.

(** Time slept in a history, in nanoseconds. *)
Fixpoint total_sleep (h : history) : Z :=
  match h with
  | [] => 0
  | EvSleep d :: h' => d + total_sleep h'
  | _ :: h' => total_sleep h'
  end.


(** * Properties *)

(** ** Running the monad *)

Lemma bind_run {A B} (m : M A) (k : A -> M B) h a h' :
  m h = Some (a, h') -> bind m k h = k a h'.
Proof. unfold bind. now intros ->. Qed.

Lemma bind_inv {A B} (m : M A) (k : A -> M B) h b h2 :
  bind m k h = Some (b, h2) ->
  exists a h1, m h = Some (a, h1) /\ k a h1 = Some (b, h2).
Proof.
  unfold bind. destruct (m h) as [[a h1]|]; [|discriminate].
  intros H. now exists a, h1.
Qed.

Lemma Some_pair_inv {A B} (a c : A) (b d : B) :
  Some (a, b) = Some (c, d) -> a = c /\ b = d.
Proof. intros H. injection H. auto. Qed.

Lemma bind_ext {A B} (m1 m2 : M A) (k1 k2 : A -> M B) h :
  m1 h = m2 h -> (forall a h', k1 a h' = k2 a h') ->
  bind m1 k1 h = bind m2 k2 h.
Proof.
  unfold bind. intros -> Hk. destruct (m2 h) as [[a h']|]; auto.
Qed.

(** Histories are kept in the form [h ++ e1 :: e2 :: ...]. *)
Ltac norm_hist := repeat rewrite <- app_assoc; cbn [app].
Ltac norm_hist_in H := repeat rewrite <- app_assoc in H; cbn [app] in H.

(** ** start and stop *)

Lemma start_run env i h : start env i h = Some (tt, h ++ start_events i).
Proof.
  unfold start, start_events, bind, writeSdaOpenDrain, writeSclOpenDrain,
    sleepHalfCycle, pin_In, pin_Out, time_Sleep, ret, Low.
  norm_hist. reflexivity.
Qed.

Lemma stop_run env i h : stop env i h = Some (tt, h ++ stop_events i).
Proof.
  unfold stop, stop_events, bind, sleepHalfCycle, pin_Out, time_Sleep.
  norm_hist. reflexivity.
Qed.

Lemma sleepHalfCycle_run i h :
  sleepHalfCycle i h = Some (tt, h ++ [EvSleep time_Microsecond]).
Proof. reflexivity. Qed.

(** ** The bit sent in the x-th clock pulse is bit 7-x of the byte *)

Lemma land_pow2_testbit b k :
  0 <= k -> (Z.land b (2 ^ k) =? 0) = negb (Z.testbit b k).
Proof.
  intros Hk.
  assert (E : Z.land b (2 ^ k) = if Z.testbit b k then 2 ^ k else 0).
  { apply Z.bits_inj'. intros n Hn.
    rewrite Z.land_spec, Z.pow2_bits_eqb by assumption.
    destruct (Z.eqb_spec k n) as [->|Hne].
    - destruct (Z.testbit b n).
      + now rewrite Z.pow2_bits_true.
      + now rewrite Z.bits_0.
    - rewrite andb_false_r. destruct (Z.testbit b k).
      + now rewrite Z.pow2_bits_false.
      + now rewrite Z.bits_0. }
  rewrite E. destruct (Z.testbit b k); cbn.
  - apply Z.eqb_neq. apply Z.pow_nonzero; lia.
  - reflexivity.
Qed.

Lemma bit_of_testbit b x :
  0 <= x <= 7 -> bit_of b x = Z.testbit b (7 - x).
Proof.
  intros Hx. unfold bit_of, u8.
  rewrite (Z.mod_small (7 - x) 256) by lia.
  rewrite Z.shiftl_1_l.
  rewrite Z.mod_small.
  - rewrite land_pow2_testbit by lia. apply negb_involutive.
  - split; [apply Z.pow_nonneg; lia|].
    apply Z.lt_le_trans with (2 ^ 8); [|now cbn].
    apply Z.pow_lt_mono_r; lia.
Qed.

Lemma write_bit_run env i b x h :
  0 <= x <= 7 ->
  write_bit env i b x tt h = Some (tt, h ++ write_bit_events i b x).
Proof.
  intros Hx.
  unfold write_bit, write_bit_events, bind, writeSdaOpenDrain,
    writeSclOpenDrain, sleepHalfCycle, sda_drive, time_Sleep, ret.
  rewrite (bit_of_testbit b x Hx).
  destruct (Z.testbit b (7 - x)); unfold pin_In, pin_Out, Low;
    norm_hist; reflexivity.
Qed.

Lemma write_bits_run env i b h :
  for_range 8 0 (write_bit env i b) tt h =
  Some (tt, h ++ flat_map (write_bit_events i b) [0; 1; 2; 3; 4; 5; 6; 7]).
Proof.
  cbn [for_range flat_map].
  repeat (erewrite bind_run by (apply write_bit_run; lia); cbn [Z.add Pos.add Pos.succ]).
  unfold ret. norm_hist. reflexivity.
Qed.

(** ** Clock stretching *)

Lemma polls_S i n :
  polls i (S n) = EvRead (scl i) :: EvSleep time_Microsecond :: polls i n.
Proof. reflexivity. Qed.

Lemma clock_stretch_run env i n :
  forall fuel h,
    (n < fuel)%nat ->
    (forall k, (k < n)%nat -> read_result env (h ++ polls i k) (scl i) = Low) ->
    read_result env (h ++ polls i n) (scl i) = High ->
    clock_stretch env fuel i h = Some (tt, h ++ polls i n ++ [EvRead (scl i)]).
Proof.
  induction n as [|n IH]; intros fuel h Hfuel Hlow Hhigh.
  - destruct fuel as [|fuel]; [lia|].
    cbn in Hhigh. rewrite app_nil_r in Hhigh.
    cbn [clock_stretch]. unfold bind, pin_Read. rewrite Hhigh. reflexivity.
  - destruct fuel as [|fuel]; [lia|].
    cbn [clock_stretch]. unfold bind at 1. unfold pin_Read.
    pose proof (Hlow O ltac:(lia)) as H0.
    cbn in H0. rewrite app_nil_r in H0. rewrite H0. cbn [Bool.eqb Low].
    unfold bind, sleepHalfCycle, time_Sleep.
    rewrite (IH fuel); [rewrite polls_S; norm_hist; reflexivity | lia | |].
    + intros k Hk. specialize (Hlow (S k) ltac:(lia)).
      rewrite polls_S in Hlow. norm_hist. exact Hlow.
    + rewrite polls_S in Hhigh. norm_hist. exact Hhigh.
Qed.

Lemma count_sleeps_app h1 h2 :
  count_sleeps (h1 ++ h2) = (count_sleeps h1 + count_sleeps h2)%nat.
Proof. unfold count_sleeps. now rewrite filter_app, length_app. Qed.

Lemma count_sleeps_polls i n : count_sleeps (polls i n) = n.
Proof.
  induction n as [|n IH]; [reflexivity|].
  rewrite polls_S. unfold count_sleeps in *. cbn. now rewrite IH.
Qed.

Lemma count_sleeps_writeByte_prefix i b : count_sleeps (writeByte_prefix i b) = 18%nat.
Proof.
  unfold writeByte_prefix, write_bit_events, sda_drive. cbn [flat_map app].
  repeat match goal with
         | |- context [Z.testbit b ?k] => destruct (Z.testbit b k)
         end; reflexivity.
Qed.

(** ** readByte *)

Lemma read_bit_run env i x b h :
  0 <= x <= 7 ->
  read_bit env i x b h =
  Some ((if read_result env
              (h ++ [EvSleep time_Microsecond; EvIn (scl i) PullUp NoEdge;
                     EvSleep time_Microsecond]) (sda i)
         then Z.lor b (2 ^ (7 - x)) else b),
        h ++ read_pulse i).
Proof.
  intros Hx.
  unfold read_bit, read_pulse, bind, writeSclOpenDrain, sleepHalfCycle,
    pin_In, pin_Out, pin_Read, time_Sleep, ret, u8, High, Low.
  rewrite (Z.mod_small 1 256) by lia.
  rewrite (Z.mod_small (7 - x) 256) by lia.
  rewrite Z.shiftl_1_l.
  rewrite (Z.mod_small (2 ^ (7 - x)) 256).
  - norm_hist.
    destruct (read_result env _ (sda i)); reflexivity.
  - split; [apply Z.pow_nonneg; lia|].
    apply Z.lt_le_trans with (2 ^ 8); [|now cbn].
    apply Z.pow_lt_mono_r; lia.
Qed.

Lemma concat_repeat_S {A} (p : list A) n :
  List.concat (repeat p (S n)) = List.concat (repeat p n) ++ p.
Proof.
  induction n as [|n IH]; cbn [repeat List.concat] in *.
  - now rewrite app_nil_r.
  - rewrite IH at 1. now rewrite app_assoc.
Qed.

Lemma read_loop env i h k :
  forall (x : nat) b,
    (x + k = 8)%nat ->
    read_inv env i h x b ->
    exists b',
      for_range k (Z.of_nat x) (read_bit env i) b
        (h ++ [EvIn (sda i) PullUp NoEdge] ++ List.concat (repeat (read_pulse i) x))
      = Some (b', h ++ [EvIn (sda i) PullUp NoEdge]
                    ++ List.concat (repeat (read_pulse i) 8))
      /\ read_inv env i h 8 b'.
Proof.
  induction k as [|k IH]; intros x b Hx Hinv.
  - replace x with 8%nat in * by lia. exists b. split; [reflexivity|exact Hinv].
  - cbn [for_range].
    erewrite bind_run by (apply read_bit_run; lia).
    replace (Z.of_nat x + 1) with (Z.of_nat (S x)) by lia.
    replace ((h ++ [EvIn (sda i) PullUp NoEdge] ++ List.concat (repeat (read_pulse i) x))
               ++ read_pulse i)
      with (h ++ [EvIn (sda i) PullUp NoEdge] ++ List.concat (repeat (read_pulse i) (S x)))
      by (unfold history; rewrite concat_repeat_S; now rewrite !app_assoc).
    apply IH; [lia|].
    replace ((h ++ [EvIn (sda i) PullUp NoEdge] ++ List.concat (repeat (read_pulse i) x))
               ++ [EvSleep time_Microsecond; EvIn (scl i) PullUp NoEdge;
                   EvSleep time_Microsecond])
      with (sample_point i h x)
      by (unfold sample_point; now rewrite !app_assoc).
    intros j. specialize (Hinv j).
    destruct (Nat.eq_dec j (7 - x)) as [->|Hne].
    + replace (7 - (7 - x))%nat with x by lia.
      replace (Nat.leb (8 - S x) (7 - x) && Nat.leb (7 - x) 7)%bool with true
        by (symmetry; apply andb_true_intro; split; apply Nat.leb_le; lia).
      replace (Nat.leb (8 - x) (7 - x)) with false in Hinv
        by (symmetry; apply Nat.leb_gt; lia).
      cbn [andb] in Hinv.
      replace (7 - Z.of_nat x) with (Z.of_nat (7 - x)) by lia.
      destruct (read_result env (sample_point i h x) (sda i)).
      * rewrite Z.lor_spec, Hinv, Z.pow2_bits_true by lia. reflexivity.
      * exact Hinv.
    + replace (Nat.leb (8 - S x) j) with (Nat.leb (8 - x) j).
      2:{ destruct (Nat.leb_spec (8 - x) j), (Nat.leb_spec (8 - S x) j);
          try reflexivity; lia. }
      replace (7 - Z.of_nat x) with (Z.of_nat (7 - x)) by lia.
      destruct (read_result env (sample_point i h x) (sda i)); [|exact Hinv].
      rewrite Z.lor_spec, Hinv, Z.pow2_bits_false by lia.
      apply orb_false_r.
Qed.

Lemma read_inv_range env i h b : read_inv env i h 8 b -> 0 <= b < 256.
Proof.
  intros Hinv.
  assert (E : b mod 2 ^ 8 = b).
  { apply Z.bits_inj'. intros n Hn.
    destruct (Z.ltb_spec n 8) as [Hlt|Hge].
    - now rewrite Z.mod_pow2_bits_low by lia.
    - rewrite Z.mod_pow2_bits_high by lia.
      specialize (Hinv (Z.to_nat n)). rewrite Z2Nat.id in Hinv by lia.
      rewrite Hinv.
      replace (Nat.leb (Z.to_nat n) 7) with false
        by (symmetry; apply Nat.leb_gt; lia).
      now rewrite andb_false_r. }
  rewrite <- E. apply Z.mod_pos_bound. reflexivity.
Qed.

Lemma read_inv_bits env i h b :
  read_inv env i h 8 b ->
  bits_msb_first b =
  map (fun x => read_result env (sample_point i h x) (sda i)) (seq 0 8).
Proof.
  intros Hinv. unfold bits_msb_first.
  apply map_ext_in. intros x Hx. apply in_seq in Hx.
  replace (7 - Z.of_nat x) with (Z.of_nat (7 - x)) by lia.
  rewrite Hinv.
  replace (7 - (7 - x))%nat with x by lia.
  replace (Nat.leb (7 - x) 7) with true by (symmetry; apply Nat.leb_le; lia).
  reflexivity.
Qed.

Lemma readByte_run env i h :
  exists b,
    readByte env i h = Some (b, h ++ readByte_events i)
    /\ 0 <= b < 256
    /\ bits_msb_first b =
       map (fun x => read_result env (sample_point i h x) (sda i)) (seq 0 8).
Proof.
  destruct (read_loop env i h 8 0 0 eq_refl) as (b & Hrun & Hinv).
  { intros j. cbn [Nat.sub]. rewrite Z.bits_0.
    destruct (Nat.leb_spec 8 j), (Nat.leb_spec j 7); try reflexivity; lia. }
  exists b. split; [|split].
  - unfold readByte. unfold bind at 1. unfold pin_In at 1.
    cbn [repeat List.concat app] in Hrun. rewrite app_nil_r in Hrun.
    change (Z.of_nat 0) with 0 in Hrun.
    erewrite bind_run by exact Hrun.
    unfold bind, writeSdaOpenDrain, writeSclOpenDrain, sleepHalfCycle,
      pin_In, pin_Out, time_Sleep, ret.
    unfold readByte_events, read_ack_events, Low.
    norm_hist. reflexivity.
  - exact (read_inv_range env i h b Hinv).
  - exact (read_inv_bits env i h b Hinv).
Qed.

(** ** writeByte *)

Lemma writeByte_run env fuel i b h n :
  (forall k, (k < n)%nat ->
     read_result env (h ++ writeByte_prefix i b ++ polls i k) (scl i) = Low) ->
  read_result env (h ++ writeByte_prefix i b ++ polls i n) (scl i) = High ->
  (n < fuel)%nat ->
  writeByte env fuel i b h =
  Some ((Bool.eqb (read_result env
                     (h ++ writeByte_prefix i b ++ polls i n ++ [EvRead (scl i)])
                     (sda i)) Low, None),
        h ++ writeByte_events i b n).
Proof.
  intros Hlow Hhigh Hfuel.
  unfold writeByte.
  unfold bind at 1. unfold sleepHalfCycle at 1, time_Sleep at 1.
  erewrite bind_run by apply write_bits_run.
  unfold bind at 1. unfold sleepHalfCycle at 1, time_Sleep at 1.
  unfold bind at 1. unfold writeSclOpenDrain at 1, pin_In at 1.
  unfold bind at 1. unfold writeSdaOpenDrain at 1, pin_In at 1.
  erewrite bind_run.
  2:{ apply (clock_stretch_run env i n); [exact Hfuel | |].
      - intros k Hk. specialize (Hlow k Hk).
        unfold writeByte_prefix in Hlow. norm_hist. norm_hist_in Hlow.
        exact Hlow.
      - unfold writeByte_prefix in Hhigh. norm_hist. norm_hist_in Hhigh.
        exact Hhigh. }
  unfold bind, pin_Read, sleepHalfCycle, time_Sleep, writeSclOpenDrain,
    pin_Out, ret.
  unfold writeByte_events, writeByte_prefix, writeByte_suffix, Low.
  norm_hist. reflexivity.
Qed.

Lemma count_sleeps_writeByte_events i b n :
  count_sleeps (writeByte_events i b n) = (20 + n)%nat.
Proof.
  unfold writeByte_events.
  rewrite !count_sleeps_app, count_sleeps_writeByte_prefix, count_sleeps_polls.
  cbn. lia.
Qed.

(** Whenever the stretching loop returns, it polled the clock [n + 1]
    times for some [n] and slept after each of the first [n] polls. *)
Lemma clock_stretch_inv env i fuel :
  forall h u h',
    clock_stretch env fuel i h = Some (u, h') ->
    exists n, (n < fuel)%nat /\ h' = h ++ polls i n ++ [EvRead (scl i)].
Proof.
  induction fuel as [|fuel IH]; intros h u h' H.
  - discriminate.
  - cbn [clock_stretch] in H. unfold bind at 1 in H. unfold pin_Read in H.
    destruct (read_result env h (scl i)); cbn [Bool.eqb Low] in H.
    + unfold ret in H. injection H as _ <-. exists O. split; [lia|reflexivity].
    + unfold bind, sleepHalfCycle, time_Sleep in H.
      apply IH in H. destruct H as (n & Hn & ->).
      exists (S n). split; [lia|]. rewrite polls_S. norm_hist. reflexivity.
Qed.

Lemma writeByte_inv env fuel i b h ack err h' :
  writeByte env fuel i b h = Some ((ack, err), h') ->
  err = None /\ exists n, (n < fuel)%nat /\ h' = h ++ writeByte_events i b n.
Proof.
  unfold writeByte.
  unfold bind at 1. unfold sleepHalfCycle at 1, time_Sleep at 1.
  erewrite bind_run by apply write_bits_run.
  unfold bind at 1. unfold sleepHalfCycle at 1, time_Sleep at 1.
  unfold bind at 1. unfold writeSclOpenDrain at 1, pin_In at 1.
  unfold bind at 1. unfold writeSdaOpenDrain at 1, pin_In at 1.
  intros H. apply bind_inv in H. destruct H as (u & h1 & Hs & H).
  apply clock_stretch_inv in Hs. destruct Hs as (n & Hn & ->).
  unfold bind, pin_Read, sleepHalfCycle, time_Sleep, writeSclOpenDrain,
    pin_Out, ret in H.
  injection H as _ <- <-. split; [reflexivity|].
  exists n. split; [exact Hn|].
  unfold writeByte_events, writeByte_prefix, writeByte_suffix, Low.
  norm_hist. reflexivity.
Qed.

Lemma write_checked_inv env fuel i b h e h' :
  write_checked env fuel i b h = Some (e, h') ->
  (e = None \/ e = Some ErrNACK)
  /\ exists n, (n < fuel)%nat /\ h' = h ++ writeByte_events i b n.
Proof.
  unfold write_checked. intros H.
  apply bind_inv in H. destruct H as ([ack err] & h1 & Hw & H).
  apply writeByte_inv in Hw. destruct Hw as (-> & n & Hn & ->).
  destruct ack; cbn [negb] in H; unfold ret in H; injection H as <- <-;
    (split; [auto | exists n; auto]).
Qed.

(** The write phase: either every byte is written and acknowledged, or
    the bytes up to the first one that is not. *)
Lemma write_all_inv env fuel i w :
  forall h e h',
    write_all env fuel i w h = Some (e, h') ->
    exists k ns,
      h' = h ++ writes_events i (firstn k w) ns
      /\ ((e = None /\ k = List.length w)
          \/ (e = Some ErrNACK /\ (1 <= k <= List.length w)%nat)).
Proof.
  induction w as [|b w IH]; intros h e h' H.
  - cbn in H. unfold ret in H. injection H as <- <-.
    exists O, []. cbn. rewrite app_nil_r. auto.
  - cbn [write_all] in H. apply bind_inv in H.
    destruct H as (e1 & h1 & Hc & H).
    apply write_checked_inv in Hc. destruct Hc as (He1 & n & _ & ->).
    destruct He1 as [-> | ->].
    + apply IH in H. destruct H as (k & ns & -> & Hk).
      exists (S k), (n :: ns). cbn [firstn writes_events hd tl List.length].
      split; [now rewrite <- !app_assoc|].
      destruct Hk as [[-> ->] | [-> Hk]]; [left | right]; split; auto; lia.
    + unfold ret in H. injection H as <- <-.
      exists 1%nat, [n]. cbn [firstn writes_events hd tl List.length].
      rewrite app_nil_r. split; [reflexivity|]. right. split; [reflexivity|lia].
Qed.

(** The read phase never fails: one [readByte] per slot of [r]. *)
Lemma read_all_run env i r :
  forall h, exists bs,
    read_all env i r h =
    Some (bs, h ++ List.concat (repeat (readByte_events i) (List.length r)))
    /\ List.length bs = List.length r
    /\ Forall (fun b => 0 <= b < 256) bs.
Proof.
  induction r as [|x r IH]; intros h.
  - exists []. cbn. rewrite app_nil_r. auto.
  - destruct (readByte_run env i h) as (b & Hb & Hrange & _).
    destruct (IH (h ++ readByte_events i)) as (bs & Hbs & Hlen & Hall).
    exists (b :: bs). cbn [read_all].
    erewrite bind_run by exact Hb. erewrite bind_run by exact Hbs.
    unfold ret. cbn [repeat List.concat List.length].
    rewrite <- app_assoc. split; [reflexivity|]. split; [now f_equal|].
    now constructor.
Qed.

(** ** Histories without a direct high drive, and counting stop conditions *)

Lemma open_drain_app h1 h2 :
  open_drain h1 -> open_drain h2 -> open_drain (h1 ++ h2).
Proof.
  unfold open_drain, open_drain_b. rewrite forallb_app. now intros -> ->.
Qed.

Lemma open_drain_cons e h :
  open_drain (e :: h) <-> is_high_drive e = false /\ open_drain h.
Proof.
  unfold open_drain, open_drain_b. cbn [forallb].
  rewrite andb_true_iff, negb_true_iff.
  reflexivity.
Qed.

Lemma open_drain_concat_repeat p n :
  open_drain p -> open_drain (List.concat (repeat p n)).
Proof.
  intros Hp. induction n as [|n IH]; [reflexivity|].
  cbn [repeat List.concat]. now apply open_drain_app.
Qed.

Lemma open_drain_start i : open_drain (start_events i).
Proof. reflexivity. Qed.

Lemma open_drain_writeByte i b n : open_drain (writeByte_events i b n).
Proof.
  unfold writeByte_events. apply open_drain_app; [|apply open_drain_app].
  - unfold writeByte_prefix, write_bit_events, sda_drive. cbn [flat_map app].
    repeat match goal with
           | |- context [Z.testbit b ?k] => destruct (Z.testbit b k)
           end; reflexivity.
  - apply open_drain_concat_repeat. reflexivity.
  - reflexivity.
Qed.

Lemma open_drain_writes i bs :
  forall ns, open_drain (writes_events i bs ns).
Proof.
  induction bs as [|b bs IH]; intros ns; [reflexivity|].
  cbn [writes_events]. apply open_drain_app; [apply open_drain_writeByte|apply IH].
Qed.

Lemma open_drain_readByte i : open_drain (readByte_events i).
Proof. reflexivity. Qed.

(** A stop condition cannot begin where the third event from there is not
    a direct high drive. *)
Lemma prefixb_stop_false i t :
  match t with
  | _ :: _ :: y :: _ => is_high_drive y = false
  | _ => True
  end ->
  prefixb (stop_events i) t = false.
Proof.
  unfold stop_events.
  destruct t as [|e0 [|e1 [|y t]]]; cbn [prefixb]; intros Hy.
  - reflexivity.
  - now rewrite andb_false_r.
  - now rewrite !andb_false_r.
  - replace (event_eqb (EvOut (scl i) High) y) with false.
    + cbn [andb]. now rewrite !andb_false_r.
    + destruct y as [| p [|] | |]; cbn in *; try reflexivity; discriminate.
Qed.

Lemma occurrences_skip i l :
  forall rest,
    open_drain l ->
    occurrences (stop_events i) (l ++ stop_events i ++ rest) =
    occurrences (stop_events i) (stop_events i ++ rest).
Proof.
  induction l as [|e l IH]; intros rest Hl; [reflexivity|].
  apply open_drain_cons in Hl. destruct Hl as [_ Hl].
  change ((e :: l) ++ stop_events i ++ rest)
    with (e :: (l ++ stop_events i ++ rest)).
  cbn [occurrences]. rewrite prefixb_stop_false; [now apply IH|].
  destruct l as [|x [|y l]]; cbn [app stop_events].
  - reflexivity.
  - reflexivity.
  - apply open_drain_cons in Hl. destruct Hl as [_ Hl].
    apply open_drain_cons in Hl. now destruct Hl as [Hy _].
Qed.

Lemma occurrences_stop_head i rest :
  occurrences (stop_events i) (stop_events i ++ rest) =
  S (occurrences (stop_events i) rest).
Proof.
  unfold stop_events, Low, High.
  cbn [app occurrences prefixb event_eqb Bool.eqb andb].
  rewrite !String.eqb_refl, Z.eqb_refl. cbn [andb Nat.add].
  reflexivity.
Qed.

Lemma stop_count_one i l :
  open_drain l -> stop_count i (l ++ stop_events i) = 1%nat.
Proof.
  intros Hl. unfold stop_count.
  rewrite <- (app_nil_r (stop_events i)) at 2.
  rewrite occurrences_skip by assumption.
  now rewrite occurrences_stop_head.
Qed.

Lemma stop_count_two i l1 l2 :
  open_drain l1 -> open_drain l2 ->
  stop_count i (l1 ++ stop_events i ++ l2 ++ stop_events i) = 2%nat.
Proof.
  intros H1 H2. unfold stop_count.
  rewrite occurrences_skip by assumption.
  rewrite occurrences_stop_head.
  f_equal. now apply stop_count_one.
Qed.

(** ** Line state *)

Lemma last_drive_from_app p h1 h2 :
  forall m, last_drive_from p (h1 ++ h2) m =
            last_drive_from p h2 (last_drive_from p h1 m).
Proof.
  induction h1 as [|e h1 IH]; intros m; [reflexivity|].
  destruct e; cbn [app last_drive_from]; apply IH.
Qed.

Lemma line_high_after_stop i h :
  line_high (scl i) (h ++ stop_events i) = true
  /\ line_high (sda i) (h ++ stop_events i) = true.
Proof.
  unfold line_high, last_drive. rewrite !last_drive_from_app.
  unfold stop_events, High, Low. cbn [last_drive_from].
  rewrite !String.eqb_refl.
  split.
  - now destruct (String.eqb (scl i) (sda i)).
  - reflexivity.
Qed.

Lemma last_drive_after_start i h :
  last_drive (scl i) (h ++ start_events i) = Some (Output Low)
  /\ last_drive (sda i) (h ++ start_events i) = Some (Output Low).
Proof.
  unfold last_drive. rewrite !last_drive_from_app.
  unfold start_events, Low. cbn [last_drive_from].
  rewrite !String.eqb_refl.
  split.
  - reflexivity.
  - now destruct (String.eqb (sda i) (scl i)).
Qed.

(** ** Transactions *)

(** The events of the address phase, write phase and read phase contain
    no direct high drive. *)
Lemma Tx_body_inv env fuel i addr w r h e r' h' :
  Tx_body env fuel i addr w r h = Some ((e, r'), h') ->
  exists body, h' = h ++ body /\ open_drain body /\ is_bus_error e.
Proof.
  unfold Tx_body, is_bus_error. intros H.
  apply bind_inv in H. destruct H as (e1 & h1 & Ha & H).
  assert (Ha' : exists evs, h1 = h ++ evs /\ open_drain evs /\
                            (e1 = None \/ e1 = Some ErrNACK
                             \/ e1 = Some ErrInvalidAddress)).
  { destruct (negb (addr =? SkipAddr)).
    - destruct (addr >? 255).
      + unfold ret in Ha. injection Ha as <- <-.
        exists []. rewrite app_nil_r. repeat split; auto.
      + apply write_checked_inv in Ha. destruct Ha as (He & n & _ & ->).
        eexists. split; [reflexivity|]. split; [apply open_drain_writeByte|].
        tauto.
    - unfold ret in Ha. injection Ha as <- <-.
      exists []. rewrite app_nil_r. repeat split; auto. }
  destruct Ha' as (ev1 & -> & Hod1 & He1).
  destruct e1 as [err|].
  - unfold ret in H. injection H as <- _ <-. eauto.
  - apply bind_inv in H. destruct H as (e2 & h2 & Hw & H).
    apply write_all_inv in Hw. destruct Hw as (k & ns & -> & Hk).
    destruct e2 as [err|].
    + unfold ret in H. injection H as <- _ <-.
      exists (ev1 ++ writes_events i (firstn k w) ns).
      rewrite app_assoc. split; [reflexivity|].
      split; [apply open_drain_app; auto using open_drain_writes|].
      destruct Hk as [[Hk _]|[Hk _]]; [discriminate|auto].
    + apply bind_inv in H. destruct H as (bs & h3 & Hr & H).
      destruct (read_all_run env i r ((h ++ ev1) ++ writes_events i (firstn k w) ns))
        as (bs' & Hr' & _).
      rewrite Hr' in Hr. injection Hr as <- <-.
      unfold ret in H. injection H as <- _ <-.
      exists (ev1 ++ writes_events i (firstn k w) ns
                  ++ List.concat (repeat (readByte_events i) (List.length r))).
      rewrite !app_assoc. split; [reflexivity|].
      split; [|auto].
      rewrite <- app_assoc.
      apply open_drain_app; [assumption|].
      apply open_drain_app; [apply open_drain_writes|].
      apply open_drain_concat_repeat, open_drain_readByte.
Qed.

Lemma ReadRepeatedStart_body_inv env fuel i addr w r h e r' h' :
  ReadRepeatedStart_body env fuel i addr w r h = Some ((e, r'), h') ->
  exists body, h' = h ++ body /\ open_drain body /\ is_bus_error e.
Proof.
  unfold ReadRepeatedStart_body, is_bus_error. intros H.
  apply bind_inv in H. destruct H as ([e1 addr1] & h1 & Ha & H).
  assert (Ha' : exists evs, h1 = h ++ evs /\ open_drain evs /\
                            (e1 = None \/ e1 = Some ErrNACK
                             \/ e1 = Some ErrInvalidAddress)).
  { destruct (negb (addr =? SkipAddr)).
    - destruct (addr >? 255).
      + unfold ret in Ha. injection Ha as <- _ <-.
        exists []. rewrite app_nil_r. repeat split; auto.
      + apply bind_inv in Ha. destruct Ha as (e0 & h0 & Hc & Ha).
        unfold ret in Ha. injection Ha as <- _ <-.
        apply write_checked_inv in Hc. destruct Hc as (He & n & _ & ->).
        eexists. split; [reflexivity|]. split; [apply open_drain_writeByte|].
        tauto.
    - unfold ret in Ha. injection Ha as <- _ <-.
      exists []. rewrite app_nil_r. repeat split; auto. }
  destruct Ha' as (ev1 & -> & Hod1 & He1).
  destruct e1 as [err|].
  - unfold ret in H. injection H as <- _ <-. eauto.
  - apply bind_inv in H. destruct H as (e2 & h2 & Hw & H).
    apply write_all_inv in Hw. destruct Hw as (k & ns & -> & Hk).
    destruct e2 as [err|].
    + unfold ret in H. injection H as <- _ <-.
      exists (ev1 ++ writes_events i (firstn k w) ns).
      rewrite app_assoc. split; [reflexivity|].
      split; [apply open_drain_app; auto using open_drain_writes|].
      destruct Hk as [[Hk _]|[Hk _]]; [discriminate|auto].
    + unfold bind at 1 in H. rewrite start_run in H.
      apply bind_inv in H. destruct H as (e3 & h3 & Hb & H).
      assert (Hb' : exists evs, h3 = h ++ ev1 ++ writes_events i (firstn k w) ns
                                        ++ start_events i ++ evs
                                /\ open_drain evs /\
                                (e3 = None \/ e3 = Some ErrNACK
                                 \/ e3 = Some ErrInvalidAddress)).
      { destruct (negb (addr1 =? SkipAddr)).
        - destruct (addr1 >? 255).
          + unfold ret in Hb. injection Hb as <- <-.
            exists []. rewrite app_nil_r, <- !app_assoc. repeat split; auto.
          + apply write_checked_inv in Hb. destruct Hb as (He & n & _ & ->).
            eexists. rewrite <- !app_assoc. split; [reflexivity|].
            split; [apply open_drain_writeByte|]. tauto.
        - unfold ret in Hb. injection Hb as <- <-.
          exists []. rewrite app_nil_r, <- !app_assoc. repeat split; auto. }
      destruct Hb' as (ev3 & -> & Hod3 & He3).
      assert (Hod : open_drain (ev1 ++ writes_events i (firstn k w) ns
                                    ++ start_events i ++ ev3)).
      { apply open_drain_app; [assumption|].
        apply open_drain_app; [apply open_drain_writes|].
        apply open_drain_app; [apply open_drain_start|assumption]. }
      destruct e3 as [err|].
      * unfold ret in H. injection H as <- _ <-. eauto.
      * apply bind_inv in H. destruct H as (bs & h4 & Hr & H).
        unfold ret in H. injection H as <- _ <-.
        match type of Hr with
        | read_all _ _ _ ?h0 = _ =>
            destruct (read_all_run env i r h0) as (bs' & Hr' & _)
        end.
        rewrite Hr' in Hr. injection Hr as _ <-.
        eexists. split.
        { rewrite <- (app_assoc h). reflexivity. }
        split; [|auto].
        apply open_drain_app; [assumption|].
        apply open_drain_concat_repeat, open_drain_readByte.
Qed.

(** ** Termination: a slave that releases the clock within the fuel *)

Lemma clock_stretch_returns env i fuel :
  forall h,
    (exists n, (n < fuel)%nat /\ read_result env (h ++ polls i n) (scl i) = High) ->
    exists h', clock_stretch env fuel i h = Some (tt, h').
Proof.
  induction fuel as [|fuel IH]; intros h (n & Hn & Hhigh); [lia|].
  cbn [clock_stretch]. unfold bind at 1. unfold pin_Read.
  destruct (read_result env h (scl i)) eqn:Hr; cbn [Bool.eqb Low].
  - eexists. reflexivity.
  - unfold bind, sleepHalfCycle, time_Sleep.
    destruct n as [|n].
    + cbn in Hhigh. rewrite app_nil_r in Hhigh. unfold High in Hhigh. congruence.
    + apply IH. exists n. split; [lia|].
      rewrite polls_S in Hhigh. norm_hist. exact Hhigh.
Qed.

Lemma writeByte_returns env fuel i b h :
  responsive env i fuel ->
  exists ack h', writeByte env fuel i b h = Some ((ack, None), h').
Proof.
  intros Hresp. unfold writeByte.
  unfold bind at 1. unfold sleepHalfCycle at 1, time_Sleep at 1.
  erewrite bind_run by apply write_bits_run.
  unfold bind at 1. unfold sleepHalfCycle at 1, time_Sleep at 1.
  unfold bind at 1. unfold writeSclOpenDrain at 1, pin_In at 1.
  unfold bind at 1. unfold writeSdaOpenDrain at 1, pin_In at 1.
  match goal with
  | |- context [bind (clock_stretch env fuel i) _ ?h0] =>
      destruct (clock_stretch_returns env i fuel h0 (Hresp h0)) as (h1 & Hs)
  end.
  erewrite bind_run by exact Hs.
  unfold bind, pin_Read, sleepHalfCycle, time_Sleep, writeSclOpenDrain,
    pin_Out, ret.
  eexists. eexists. reflexivity.
Qed.

Lemma write_checked_returns env fuel i b h :
  responsive env i fuel ->
  exists e h', write_checked env fuel i b h = Some (e, h').
Proof.
  intros Hresp. unfold write_checked.
  destruct (writeByte_returns env fuel i b h Hresp) as (ack & h' & Hw).
  erewrite bind_run by exact Hw.
  destruct ack; cbn [negb]; unfold ret; eauto.
Qed.

Lemma write_all_returns env fuel i w :
  responsive env i fuel ->
  forall h, exists e h', write_all env fuel i w h = Some (e, h').
Proof.
  intros Hresp. induction w as [|b w IH]; intros h.
  - cbn. unfold ret. eauto.
  - cbn [write_all].
    destruct (write_checked_returns env fuel i b h Hresp) as (e & h' & Hc).
    erewrite bind_run by exact Hc.
    destruct e; [unfold ret; eauto | apply IH].
Qed.

Lemma Tx_body_returns env fuel i addr w r h :
  responsive env i fuel ->
  exists res h', Tx_body env fuel i addr w r h = Some (res, h').
Proof.
  intros Hresp. unfold Tx_body.
  match goal with
  | |- context [bind ?m _ h] =>
      assert (Ha : exists e h1, m h = Some (e, h1))
  end.
  { destruct (negb (addr =? SkipAddr)); [|unfold ret; eauto].
    destruct (addr >? 255); [unfold ret; eauto|].
    now apply write_checked_returns. }
  destruct Ha as (e & h1 & Ha). erewrite bind_run by exact Ha.
  destruct e; [unfold ret; eauto|].
  destruct (write_all_returns env fuel i w Hresp h1) as (e2 & h2 & Hw).
  erewrite bind_run by exact Hw.
  destruct e2; [unfold ret; eauto|].
  destruct (read_all_run env i r h2) as (bs & Hr & _).
  erewrite bind_run by exact Hr. unfold ret. eauto.
Qed.

Lemma ReadRepeatedStart_body_returns env fuel i addr w r h :
  responsive env i fuel ->
  exists res h', ReadRepeatedStart_body env fuel i addr w r h = Some (res, h').
Proof.
  intros Hresp. unfold ReadRepeatedStart_body.
  match goal with
  | |- context [bind ?m _ h] =>
      assert (Ha : exists e a h1, m h = Some ((e, a), h1))
  end.
  { destruct (negb (addr =? SkipAddr)); [|unfold ret; eauto].
    destruct (addr >? 255); [unfold ret; eauto|].
    match goal with
    | |- context [write_checked env fuel i ?b] =>
        destruct (write_checked_returns env fuel i b h Hresp) as (e & h1 & Hc)
    end.
    erewrite bind_run by exact Hc. unfold ret. eauto. }
  destruct Ha as (e & addr1 & h1 & Ha). erewrite bind_run by exact Ha.
  destruct e; [unfold ret; eauto|].
  destruct (write_all_returns env fuel i w Hresp h1) as (e2 & h2 & Hw).
  erewrite bind_run by exact Hw.
  destruct e2; [unfold ret; eauto|].
  erewrite bind_run by apply start_run.
  match goal with
  | |- context [bind ?m _ ?h0] =>
      assert (Hb : exists e h3, m h0 = Some (e, h3))
  end.
  { destruct (negb (addr1 =? SkipAddr)); [|unfold ret; eauto].
    destruct (addr1 >? 255); [unfold ret; eauto|].
    now apply write_checked_returns. }
  destruct Hb as (e3 & h3 & Hb). erewrite bind_run by exact Hb.
  destruct e3; [unfold ret; eauto|].
  destruct (read_all_run env i r h3) as (bs & Hr & _).
  erewrite bind_run by exact Hr. unfold ret. eauto.
Qed.

Lemma transaction_returns t env fuel i addr w r h :
  responsive env i fuel ->
  exists res h', run_transaction t env fuel i addr w r h = Some (res, h').
Proof.
  intros Hresp. destruct t; cbn [run_transaction].
  - unfold Tx. erewrite bind_run by apply start_run.
    destruct (Tx_body_returns env fuel i addr w r (h ++ start_events i) Hresp)
      as (res & h' & Hb).
    erewrite bind_run by exact Hb. erewrite bind_run by apply stop_run.
    unfold ret. eauto.
  - unfold ReadRepeatedStart.
    erewrite bind_run by apply start_run.
    erewrite bind_run by apply sleepHalfCycle_run.
    erewrite bind_run by apply stop_run.
    erewrite bind_run by apply sleepHalfCycle_run.
    erewrite bind_run by apply start_run.
    match goal with
    | |- context [bind (ReadRepeatedStart_body _ _ _ _ _ _) _ ?h0] =>
        destruct (ReadRepeatedStart_body_returns env fuel i addr w r h0 Hresp)
          as (res & h' & Hb)
    end.
    erewrite bind_run by exact Hb. erewrite bind_run by apply stop_run.
    unfold ret. eauto.
Qed.

(** ** What a transaction depends on: the pins' names and the levels read *)

Section Dependence.

Variables env1 env2 : PinEnv.
Variables i j : I2C.
Variable fuel : nat.
Hypothesis Hreads : same_reads env1 env2.
Hypothesis Hpins : same_pins i j.

Lemma dep_In {B} p pull edge (k1 k2 : M B) h :
  (forall h', k1 h' = k2 h') ->
  bind (pin_In env1 p pull edge) (fun _ => k1) h =
  bind (pin_In env2 p pull edge) (fun _ => k2) h.
Proof. intros Hk. unfold bind, pin_In. apply Hk. Qed.

Lemma dep_Out {B} p l (k1 k2 : M B) h :
  (forall h', k1 h' = k2 h') ->
  bind (pin_Out env1 p l) (fun _ => k1) h =
  bind (pin_Out env2 p l) (fun _ => k2) h.
Proof. intros Hk. unfold bind, pin_Out. apply Hk. Qed.

Lemma dep_Read {B} p (k1 k2 : Level -> M B) h :
  (forall l h', k1 l h' = k2 l h') ->
  bind (pin_Read env1 p) k1 h = bind (pin_Read env2 p) k2 h.
Proof. intros Hk. unfold bind, pin_Read. rewrite Hreads. apply Hk. Qed.

Lemma dep_sleep {B} (k1 k2 : M B) h :
  (forall h', k1 h' = k2 h') ->
  bind (sleepHalfCycle i) (fun _ => k1) h =
  bind (sleepHalfCycle j) (fun _ => k2) h.
Proof. intros Hk. unfold bind, sleepHalfCycle, time_Sleep. apply Hk. Qed.

Lemma dep_sda {B} b (k1 k2 : M B) h :
  (forall h', k1 h' = k2 h') ->
  bind (writeSdaOpenDrain env1 i b) (fun _ => k1) h =
  bind (writeSdaOpenDrain env2 j b) (fun _ => k2) h.
Proof.
  intros Hk. unfold writeSdaOpenDrain. destruct Hpins as [_ <-].
  destruct b; [now apply dep_In | now apply dep_Out].
Qed.

Lemma dep_scl {B} b (k1 k2 : M B) h :
  (forall h', k1 h' = k2 h') ->
  bind (writeSclOpenDrain env1 i b) (fun _ => k1) h =
  bind (writeSclOpenDrain env2 j b) (fun _ => k2) h.
Proof.
  intros Hk. unfold writeSclOpenDrain. destruct Hpins as [<- _].
  destruct b; [now apply dep_In | now apply dep_Out].
Qed.

Ltac dep_step :=
  first [ apply dep_Read | apply dep_sleep | apply dep_sda | apply dep_scl
        | apply dep_In | apply dep_Out ]; intros; cbv beta zeta.

Lemma dep_start h : start env1 i h = start env2 j h.
Proof. unfold start. repeat dep_step. reflexivity. Qed.

Lemma dep_stop h : stop env1 i h = stop env2 j h.
Proof.
  unfold stop. pose proof Hpins as [Hc Hd]. rewrite Hc, Hd.
  repeat dep_step. reflexivity.
Qed.

Lemma dep_for_range {S} (body1 body2 : Z -> S -> M S) n :
  (forall x s h, body1 x s h = body2 x s h) ->
  forall x s h, for_range n x body1 s h = for_range n x body2 s h.
Proof.
  intros Hb. induction n as [|n IH]; intros x s h; [reflexivity|].
  cbn [for_range]. apply bind_ext; [apply Hb|]. intros. apply IH.
Qed.

Lemma dep_write_bit b x u h :
  write_bit env1 i b x u h = write_bit env2 j b x u h.
Proof. unfold write_bit. repeat dep_step. reflexivity. Qed.

Lemma dep_read_bit x b h : read_bit env1 i x b h = read_bit env2 j x b h.
Proof.
  unfold read_bit. pose proof Hpins as [Hc Hd].
  do 3 dep_step. rewrite Hd. dep_step. dep_step. reflexivity.
Qed.

Lemma dep_clock_stretch n :
  forall h, clock_stretch env1 n i h = clock_stretch env2 n j h.
Proof.
  induction n as [|n IH]; intros h; [reflexivity|].
  cbn [clock_stretch]. pose proof Hpins as [Hc Hd]. rewrite Hc.
  dep_step. destruct (Bool.eqb l Low); [|reflexivity].
  dep_step. apply IH.
Qed.

Lemma dep_writeByte b h :
  writeByte env1 fuel i b h = writeByte env2 fuel j b h.
Proof.
  unfold writeByte. dep_step.
  apply bind_ext; [apply dep_for_range; intros; apply dep_write_bit|]. intros.
  do 3 dep_step.
  apply bind_ext; [apply dep_clock_stretch|]. intros.
  pose proof Hpins as [Hc Hd]. rewrite Hd.
  repeat dep_step. reflexivity.
Qed.

Lemma dep_readByte h : readByte env1 i h = readByte env2 j h.
Proof.
  unfold readByte. pose proof Hpins as [Hc Hd]. rewrite Hd.
  dep_step.
  apply bind_ext; [apply dep_for_range; intros; apply dep_read_bit|]. intros.
  repeat dep_step. reflexivity.
Qed.

Lemma dep_write_checked b h :
  write_checked env1 fuel i b h = write_checked env2 fuel j b h.
Proof.
  unfold write_checked. apply bind_ext; [apply dep_writeByte|reflexivity].
Qed.

Lemma dep_write_all w :
  forall h, write_all env1 fuel i w h = write_all env2 fuel j w h.
Proof.
  induction w as [|b w IH]; intros h; [reflexivity|].
  cbn [write_all]. apply bind_ext; [apply dep_write_checked|].
  intros [e|] h'; [reflexivity|apply IH].
Qed.

Lemma dep_read_all r :
  forall h, read_all env1 i r h = read_all env2 j r h.
Proof.
  induction r as [|x r IH]; intros h; [reflexivity|].
  cbn [read_all]. apply bind_ext; [apply dep_readByte|]. intros.
  apply bind_ext; [apply IH|reflexivity].
Qed.

Lemma dep_Tx_body addr w r h :
  Tx_body env1 fuel i addr w r h = Tx_body env2 fuel j addr w r h.
Proof.
  unfold Tx_body. apply bind_ext.
  - destruct (negb (addr =? SkipAddr)); [|reflexivity].
    destruct (addr >? 255); [reflexivity|apply dep_write_checked].
  - intros [e|] h1; [reflexivity|].
    apply bind_ext; [apply dep_write_all|].
    intros [e|] h2; [reflexivity|].
    apply bind_ext; [apply dep_read_all|reflexivity].
Qed.

Lemma dep_ReadRepeatedStart_body addr w r h :
  ReadRepeatedStart_body env1 fuel i addr w r h =
  ReadRepeatedStart_body env2 fuel j addr w r h.
Proof.
  unfold ReadRepeatedStart_body. apply bind_ext.
  - destruct (negb (addr =? SkipAddr)); [|reflexivity].
    destruct (addr >? 255); [reflexivity|].
    apply bind_ext; [apply dep_write_checked|reflexivity].
  - intros [[e|] addr1] h1; [reflexivity|].
    apply bind_ext; [apply dep_write_all|].
    intros [e|] h2; [reflexivity|].
    apply bind_ext; [apply dep_start|]. intros _ h3.
    apply bind_ext.
    + destruct (negb (addr1 =? SkipAddr)); [|reflexivity].
      destruct (addr1 >? 255); [reflexivity|apply dep_write_checked].
    + intros [e|] h4; [reflexivity|].
      apply bind_ext; [apply dep_read_all|reflexivity].
Qed.

Lemma dep_transaction t addr w r h :
  run_transaction t env1 fuel i addr w r h =
  run_transaction t env2 fuel j addr w r h.
Proof.
  destruct t; cbn [run_transaction].
  - unfold Tx. apply bind_ext; [apply dep_start|]. intros.
    apply bind_ext; [apply dep_Tx_body|]. intros.
    apply bind_ext; [apply dep_stop|reflexivity].
  - unfold ReadRepeatedStart.
    apply bind_ext; [apply dep_start|]. intros. dep_step.
    apply bind_ext; [apply dep_stop|]. intros. dep_step.
    apply bind_ext; [apply dep_start|]. intros.
    apply bind_ext; [apply dep_ReadRepeatedStart_body|]. intros.
    apply bind_ext; [apply dep_stop|reflexivity].
Qed.

End Dependence.

(** * The claims *)

(** C1, as the code behaves: the address check of [Tx] is [addr > 0xFF],
    not [addr > 0x7F].  Against a slave that acknowledges, [Tx] with
    address 0x80 issues the address byte 0x01 (0x80 shifted left, read bit
    set, truncated to 8 bits) and succeeds; and no address from 0x80 to
    0xFF is rejected. *)
Theorem Tx_accepts_addresses_above_0x7F :
  Tx ack_slave 1 bus 0x80 [] [] [] =
    Some ((None, []),
          start_events bus ++ writeByte_events bus 0x01 0 ++ stop_events bus)
  /\ forallb (fun addr =>
                match Tx ack_slave 1 bus addr [] [] [] with
                | Some ((None, _), _) => true
                | _ => false
                end) (map Z.of_nat (seq 128 128)) = true.
Proof. split; vm_compute; reflexivity. Qed.

(** C2, the claim as stated fails for [ReadRepeatedStart]: a call issues
    two stop conditions, the wake pulse's and the deferred one. *)
Lemma ReadRepeatedStart_issues_two_stops :
  exists res evs,
    ReadRepeatedStart ack_slave 1 bus 0x0B [0x0D] [0] [] = Some (res, evs)
    /\ stop_count bus evs <> 1%nat.
Proof.
  eexists. eexists. split; [vm_compute; reflexivity|].
  vm_compute. discriminate.
Qed.

(** C2, amended: a call to [Tx] or [ReadRepeatedStart] returns whenever the
    slave releases the clock in time, and on every exit path (success,
    address error, NACK) the call's last pin operations are a stop
    condition; [Tx] issues exactly one stop condition, [ReadRepeatedStart]
    exactly two (the wake pulse's and the final one); after the call the
    last drive on both lines is high. *)
Theorem transaction_ends_with_stop t env fuel i addr w r h :
  (responsive env i fuel ->
   exists res h', run_transaction t env fuel i addr w r h = Some (res, h'))
  /\ forall res h',
      run_transaction t env fuel i addr w r h = Some (res, h') ->
      exists evs,
        h' = h ++ evs ++ stop_events i
        /\ stop_count i (evs ++ stop_events i) = stops_issued t
        /\ is_bus_error (fst res)
        /\ line_high (scl i) h' = true
        /\ line_high (sda i) h' = true.
Proof.
  split; [apply transaction_returns|].
  intros [e r'] h' H. destruct t; cbn [run_transaction stops_issued] in *.
  - unfold Tx in H.
    erewrite bind_run in H by apply start_run.
    apply bind_inv in H. destruct H as ([e1 r1] & h1 & Hb & H).
    erewrite bind_run in H by apply stop_run.
    unfold ret in H. injection H as <- <- <-.
    apply Tx_body_inv in Hb. destruct Hb as (body & -> & Hod & He).
    exists (start_events i ++ body).
    assert (Hod' : open_drain (start_events i ++ body))
      by (apply open_drain_app; [apply open_drain_start|assumption]).
    split; [now rewrite <- !app_assoc|].
    split; [now apply stop_count_one|].
    split; [exact He|].
    apply line_high_after_stop.
  - unfold ReadRepeatedStart in H.
    erewrite bind_run in H by apply start_run.
    erewrite bind_run in H by apply sleepHalfCycle_run.
    erewrite bind_run in H by apply stop_run.
    erewrite bind_run in H by apply sleepHalfCycle_run.
    erewrite bind_run in H by apply start_run.
    apply bind_inv in H. destruct H as ([e1 r1] & h1 & Hb & H).
    erewrite bind_run in H by apply stop_run.
    unfold ret in H. injection H as <- <- <-.
    apply ReadRepeatedStart_body_inv in Hb.
    destruct Hb as (body & -> & Hod & He).
    exists ((start_events i ++ [EvSleep time_Microsecond]) ++ stop_events i
              ++ ([EvSleep time_Microsecond] ++ start_events i ++ body)).
    split; [now rewrite <- !app_assoc|].
    split.
    { rewrite <- !app_assoc.
      rewrite (app_assoc (start_events i) [EvSleep time_Microsecond]).
      rewrite (app_assoc [EvSleep time_Microsecond]).
      rewrite (app_assoc ([EvSleep time_Microsecond] ++ start_events i)).
      apply stop_count_two; [reflexivity|].
      apply open_drain_app; [reflexivity|assumption]. }
    split; [exact He|].
    apply line_high_after_stop.
Qed.

Lemma transaction_ends_with_stop_witness :
  responsive ack_slave bus 1
  /\ exists res h' evs,
      run_transaction RepeatedStart ack_slave 1 bus 0x0B [0x0D] [0] [] = Some (res, h')
      /\ h' = [] ++ evs ++ stop_events bus
      /\ stop_count bus (evs ++ stop_events bus) = 2%nat
      /\ line_high (scl bus) h' = true
      /\ line_high (sda bus) h' = true.
Proof.
  assert (Hresp : responsive ack_slave bus 1).
  { intros h. exists O. split; [lia|reflexivity]. }
  split; [exact Hresp|].
  destruct (transaction_ends_with_stop RepeatedStart ack_slave 1 bus
              0x0B [0x0D] [0] []) as [Hret Hend].
  destruct (Hret Hresp) as (res & h' & Hrun).
  destruct (Hend res h' Hrun) as (evs & E & Hc & _ & Hl1 & Hl2).
  exists res, h', evs. repeat split; assumption.
Defined.

(** C3, as the code behaves: [sleepHalfCycle] waits one microsecond
    whatever [halfCycle] holds, so a transaction behaves the same after
    [SetSpeed] with any two frequencies: same result, same history, same
    wait durations. *)
Theorem SetSpeed_does_not_change_waits
        (Period : Z -> Z) t env fuel i f1 f2 addr w r h :
  sleepHalfCycle (fst (SetSpeed Period i f1)) h =
    Some (tt, h ++ [EvSleep time_Microsecond])
  /\ sleepHalfCycle (fst (SetSpeed Period i f2)) h =
    Some (tt, h ++ [EvSleep time_Microsecond])
  /\ run_transaction t env fuel (fst (SetSpeed Period i f1)) addr w r h =
     run_transaction t env fuel (fst (SetSpeed Period i f2)) addr w r h.
Proof.
  split; [reflexivity|]. split; [reflexivity|].
  apply dep_transaction.
  - intros h0 p. reflexivity.
  - split; reflexivity.
Qed.

(** C4, as the code behaves: [stop] drives the clock and then the data
    line high with a direct [Out(High)], and so does [New] after releasing
    each line; only [start], [writeByte] and [readByte] keep to open-drain
    signalling. *)
Theorem stop_and_New_drive_high_directly (Period : Z -> Z) env i h f :
  stop env i h =
    Some (tt, h ++ [ EvOut (scl i) Low; EvSleep time_Microsecond;
                     EvOut (scl i) High; EvSleep time_Microsecond;
                     EvOut (sda i) High; EvSleep time_Microsecond ])
  /\ open_drain_b (stop_events i) = false
  /\ New ack_slave Period (scl bus) (sda bus) f [] =
     Some (inr {| scl := scl bus; sda := sda bus;
                  halfCycle := Z.quot (Period f) 2 |},
           [ EvIn (scl bus) PullUp NoEdge; EvOut (scl bus) High;
             EvIn (sda bus) PullUp NoEdge; EvOut (sda bus) High ]).
Proof.
  split; [apply stop_run|]. split; reflexivity.
Qed.

(** C5, the claim as stated fails: [start] waits once, not twice; its
    history is neither ordering of the sequence the claim gives. *)
Lemma start_waits_only_once :
  start ack_slave bus [] <> Some (tt, spec_start_events bus true)
  /\ start ack_slave bus [] <> Some (tt, spec_start_events bus false)
  /\ option_map (fun x => count_sleeps (snd x)) (start ack_slave bus [])
     = Some 1%nat.
Proof.
  split; [|split]; vm_compute; [discriminate | discriminate | reflexivity].
Qed.

(** C5, amended: the start condition performs exactly this sequence of pin
    operations: release data high, release clock high, drive data low,
    wait one half-cycle, drive clock low (no wait between releasing the
    lines and driving data low); on completion the last drive on the clock
    line and on the data line is low. *)
Theorem start_sequence env i h :
  start env i h =
    Some (tt, h ++ [ EvIn (sda i) PullUp NoEdge; EvIn (scl i) PullUp NoEdge;
                     EvOut (sda i) Low; EvSleep time_Microsecond;
                     EvOut (scl i) Low ])
  /\ last_drive (scl i) (h ++ start_events i) = Some (Output Low)
  /\ last_drive (sda i) (h ++ start_events i) = Some (Output Low).
Proof.
  split; [apply start_run|apply last_drive_after_start].
Qed.

(** C6, as the code behaves: [Tx] sets the low bit of the address byte
    when the READ buffer is empty.  A write of one byte to address 0x0B
    sends 0x17 (low bit 1), and a read of one byte from it sends 0x16
    (low bit 0). *)
Theorem Tx_address_byte_low_bit :
  Tx ack_slave 1 bus 0x0B [0x0D] [] [] =
    Some ((None, []),
          start_events bus ++ writeByte_events bus 0x17 0
            ++ writeByte_events bus 0x0D 0 ++ stop_events bus)
  /\ Tx ack_slave 1 bus 0x0B [] [0] [] =
    Some ((None, [0]),
          start_events bus ++ writeByte_events bus 0x16 0
            ++ readByte_events bus ++ stop_events bus)
  /\ writeByte_events bus 0x16 0 <> writeByte_events bus 0x17 0.
Proof.
  split; [|split]; vm_compute; [reflexivity | reflexivity | discriminate].
Qed.

(** C7, as the code behaves: the errors of [In] and [Out] are dropped.  A
    transaction does not depend on what the pins answer to direction
    changes and level drives, and with pins that fail every such call [Tx]
    reports success. *)
Theorem pin_errors_are_dropped t env ie oe fuel i addr w r h :
  run_transaction t
    {| in_result := ie; out_result := oe; read_result := read_result env |}
    fuel i addr w r h
  = run_transaction t env fuel i addr w r h
  /\ option_map fst (Tx failing_pins 1 bus 0x0B [0x0D] [] []) = Some (None, []).
Proof.
  split; [|vm_compute; reflexivity].
  apply dep_transaction.
  - intros h0 p. reflexivity.
  - split; reflexivity.
Qed.

(** C8: in the acknowledgement phase of [writeByte], after raising the
    clock and releasing the data line, the master polls the clock and, as
    long as it reads low, sleeps one half-cycle and polls again: a slave
    that holds the clock low for [n] polls causes exactly [n] additional
    waits (20 + n in all); once the clock reads high, the returned
    acknowledgement is true exactly when the data line reads low. *)
Theorem writeByte_honours_clock_stretch env fuel i b h n :
  (forall k, (k < n)%nat ->
     read_result env (h ++ writeByte_prefix i b ++ polls i k) (scl i) = Low) ->
  read_result env (h ++ writeByte_prefix i b ++ polls i n) (scl i) = High ->
  (n < fuel)%nat ->
  exists ack,
    writeByte env fuel i b h =
      Some ((ack, None),
            h ++ writeByte_prefix i b ++ polls i n
              ++ [ EvRead (scl i); EvRead (sda i); EvSleep time_Microsecond;
                   EvOut (scl i) Low; EvSleep time_Microsecond ])
    /\ (ack = true <->
        read_result env
          (h ++ writeByte_prefix i b ++ polls i n ++ [EvRead (scl i)]) (sda i)
        = Low)
    /\ count_sleeps (writeByte_events i b n) = (20 + n)%nat
    /\ count_sleeps (polls i n) = n.
Proof.
  intros Hlow Hhigh Hfuel.
  eexists. split; [apply (writeByte_run env fuel i b h n); assumption|].
  split; [|split].
  - unfold Low. destruct (read_result env _ (sda i)); cbn; split; congruence.
  - apply count_sleeps_writeByte_events.
  - apply count_sleeps_polls.
Qed.

Lemma writeByte_honours_clock_stretch_witness :
  exists ack,
    writeByte (stretching_slave 3) 4 bus 0xA5 [] =
      Some ((ack, None),
            [] ++ writeByte_prefix bus 0xA5 ++ polls bus 3
              ++ [ EvRead (scl bus); EvRead (sda bus); EvSleep time_Microsecond;
                   EvOut (scl bus) Low; EvSleep time_Microsecond ])
    /\ (ack = true <->
        read_result (stretching_slave 3)
          ([] ++ writeByte_prefix bus 0xA5 ++ polls bus 3 ++ [EvRead (scl bus)])
          (sda bus) = Low)
    /\ count_sleeps (writeByte_events bus 0xA5 3) = (20 + 3)%nat
    /\ count_sleeps (polls bus 3) = 3%nat.
Proof.
  apply (writeByte_honours_clock_stretch (stretching_slave 3) 4 bus 0xA5 [] 3).
  - intros k Hk. destruct k as [|[|[|k]]]; [reflexivity | reflexivity | reflexivity | lia].
  - reflexivity.
  - lia.
Defined.

(** C9: [readByte] assembles its result most-significant bit first (bit
    [7 - x] is set exactly when the data line reads high in the x-th clock
    pulse), and after the 8th bit it drives the data line low for the 9th
    clock: every byte read is acknowledged. *)
Theorem readByte_msb_first_always_acks env i h :
  exists b,
    readByte env i h =
      Some (b, h ++ [EvIn (sda i) PullUp NoEdge]
                 ++ List.concat (repeat (read_pulse i) 8)
                 ++ [ EvSleep time_Microsecond; EvOut (sda i) Low;
                      EvIn (scl i) PullUp NoEdge; EvSleep time_Microsecond ])
    /\ 0 <= b < 256
    /\ bits_msb_first b =
       map (fun x => read_result env (sample_point i h x) (sda i)) (seq 0 8).
Proof. exact (readByte_run env i h). Qed.

(** C10, the claim as stated fails: when the slave does not acknowledge,
    [ReadRepeatedStart] with address 0x80 returns the NACK error after the
    address byte, not the invalid-address error. *)
Lemma ReadRepeatedStart_high_address_nack :
  ReadRepeatedStart nack_slave 1 bus 0x80 [0x0D] [0] [] =
    Some ((Some ErrNACK, [0]),
          wake_events bus ++ start_events bus
            ++ writeByte_events bus 0x00 0 ++ stop_events bus)
  /\ Some ErrNACK <> Some ErrInvalidAddress.
Proof. split; [vm_compute; reflexivity|discriminate]. Qed.

Lemma ReadRepeatedStart_prefix_run env fuel i addr w r h :
  ReadRepeatedStart env fuel i addr w r h =
  (res <- ReadRepeatedStart_body env fuel i addr w r ;; stop env i ;; ret res)
    (h ++ wake_events i ++ start_events i).
Proof.
  unfold ReadRepeatedStart.
  erewrite bind_run by apply start_run.
  erewrite bind_run by apply sleepHalfCycle_run.
  erewrite bind_run by apply stop_run.
  erewrite bind_run by apply sleepHalfCycle_run.
  erewrite bind_run by apply start_run.
  unfold wake_events. now rewrite <- !app_assoc.
Qed.

Lemma shifted_high_address addr :
  0x80 <= addr <= 0xFF ->
  u16 (Z.shiftl addr 1) = 2 * addr
  /\ (addr =? SkipAddr) = false
  /\ (addr >? 0xFF) = false
  /\ (2 * addr =? SkipAddr) = false
  /\ (2 * addr >? 0xFF) = true.
Proof.
  intros Ha. unfold u16, SkipAddr.
  rewrite Z.shiftl_mul_pow2 by lia. change (2 ^ 1) with 2.
  rewrite Z.mod_small by lia.
  split; [lia|].
  split; [apply Z.eqb_neq; lia|].
  split; [rewrite Z.gtb_ltb; apply Z.ltb_ge; lia|].
  split; [apply Z.eqb_neq; lia|].
  rewrite Z.gtb_ltb. apply Z.ltb_lt; lia.
Qed.

(** C10, amended: for every address from 0x80 to 0xFF, [ReadRepeatedStart]
    passes its initial address check and executes the wake pulse, the
    start condition and the address byte (the address shifted left,
    truncated to 8 bits).  If that byte and every write byte are
    acknowledged, it executes the whole write phase and the repeated
    start, fails the second address check and returns the invalid-address
    error; if one of them is not acknowledged, it returns the NACK error
    after that byte.  Either way the call never succeeds, leaves [r]
    untouched, and reports its error only after at least the address byte
    was transferred. *)
Theorem ReadRepeatedStart_high_address env fuel i addr w r h :
  0x80 <= addr <= 0xFF ->
  ReadRepeatedStart env fuel i addr w r h =
    match write_all env fuel i (u8 (Z.shiftl addr 1) :: w)
            (h ++ wake_events i ++ start_events i) with
    | Some (None, h1) =>
        Some ((Some ErrInvalidAddress, r), h1 ++ start_events i ++ stop_events i)
    | Some (Some err, h1) => Some ((Some err, r), h1 ++ stop_events i)
    | None => None
    end
  /\ forall res h',
      ReadRepeatedStart env fuel i addr w r h = Some (res, h') ->
      snd res = r
      /\ exists k ns,
          (1 <= k <= S (List.length w))%nat
          /\ ((fst res = Some ErrInvalidAddress
               /\ k = S (List.length w)
               /\ h' = h ++ wake_events i ++ start_events i
                         ++ writes_events i (u8 (Z.shiftl addr 1) :: w) ns
                         ++ start_events i ++ stop_events i)
              \/ (fst res = Some ErrNACK
                  /\ h' = h ++ wake_events i ++ start_events i
                            ++ writes_events i
                                 (firstn k (u8 (Z.shiftl addr 1) :: w)) ns
                            ++ stop_events i)).
Proof.
  intros Ha.
  destruct (shifted_high_address addr Ha) as (Hsh & Hs1 & Hc1 & Hs2 & Hc2).
  assert (Hab : u8 (u16 (Z.shiftl addr 1)) = u8 (Z.shiftl addr 1)).
  { rewrite Hsh. rewrite Z.shiftl_mul_pow2 by lia. f_equal. lia. }
  assert (EQ : ReadRepeatedStart env fuel i addr w r h =
    match write_all env fuel i (u8 (Z.shiftl addr 1) :: w)
            (h ++ wake_events i ++ start_events i) with
    | Some (None, h1) =>
        Some ((Some ErrInvalidAddress, r), h1 ++ start_events i ++ stop_events i)
    | Some (Some err, h1) => Some ((Some err, r), h1 ++ stop_events i)
    | None => None
    end).
  { rewrite ReadRepeatedStart_prefix_run.
    set (h0 := h ++ wake_events i ++ start_events i).
    cbn [write_all].
    unfold ReadRepeatedStart_body.
    rewrite Hs1, Hc1. cbn [negb]. rewrite Hab, Hsh.
    unfold bind, ret.
    destruct (write_checked env fuel i (u8 (Z.shiftl addr 1)) h0)
      as [[[err|] h1]|]; [| |reflexivity].
    - now rewrite stop_run.
    - destruct (write_all env fuel i w h1) as [[[err|] h2]|]; [| |reflexivity].
      + now rewrite stop_run.
      + rewrite start_run, Hs2, Hc2. cbn [negb].
        rewrite stop_run. now rewrite <- app_assoc. }
  split; [exact EQ|].
  intros res h' Hrun. rewrite EQ in Hrun.
  destruct (write_all env fuel i (u8 (Z.shiftl addr 1) :: w)
              (h ++ wake_events i ++ start_events i))
    as [[e h1]|] eqn:Hw; [|discriminate].
  apply write_all_inv in Hw. destruct Hw as (k & ns & -> & Hk).
  change (List.length (u8 (Z.shiftl addr 1) :: w)) with (S (List.length w)) in Hk.
  destruct Hk as [[-> ->]|[-> Hk]].
  - change (firstn (S (List.length w)) (u8 (Z.shiftl addr 1) :: w))
      with (u8 (Z.shiftl addr 1) :: firstn (List.length w) w) in Hrun.
    rewrite firstn_all in Hrun.
    apply Some_pair_inv in Hrun. destruct Hrun as [<- <-].
    split; [reflexivity|].
    exists (S (List.length w)), ns. split; [lia|]. left.
    split; [reflexivity|]. split; [reflexivity|].
    now rewrite <- !app_assoc.
  - apply Some_pair_inv in Hrun. destruct Hrun as [<- <-].
    split; [reflexivity|].
    exists k, ns. split; [exact Hk|]. right.
    split; [reflexivity|]. now rewrite <- !app_assoc.
Qed.

Lemma ReadRepeatedStart_high_address_witness :
  0x80 <= 0x80 <= 0xFF
  /\ ReadRepeatedStart ack_slave 1 bus 0x80 [0x0D] [0] [] =
     Some ((Some ErrInvalidAddress, [0]),
           wake_events bus ++ start_events bus
             ++ writeByte_events bus 0x00 0 ++ writeByte_events bus 0x0D 0
             ++ start_events bus ++ stop_events bus).
Proof.
  split; [lia|].
  destruct (ReadRepeatedStart_high_address ack_slave 1 bus 0x80 [0x0D] [0] [])
    as [EQ _]; [lia|].
  rewrite EQ. vm_compute. reflexivity.
Defined.

(** * Further properties of the code *)

(** ** writeByte, completely *)

Lemma clock_stretch_inv_stretched env i fuel :
  forall h u h',
    clock_stretch env fuel i h = Some (u, h') ->
    exists n, (n < fuel)%nat /\ stretched env i h n
              /\ h' = h ++ polls i n ++ [EvRead (scl i)].
Proof.
  induction fuel as [|fuel IH]; intros h u h' H; [discriminate|].
  cbn [clock_stretch] in H. unfold bind at 1 in H. unfold pin_Read in H.
  destruct (read_result env h (scl i)) eqn:Hr; cbn [Bool.eqb Low] in H.
  - unfold ret in H. apply Some_pair_inv in H. destruct H as [_ <-].
    exists O. split; [lia|]. split; [|reflexivity].
    split; [intros k Hk; lia|].
    cbn [polls repeat List.concat]. now rewrite app_nil_r.
  - unfold bind, sleepHalfCycle, time_Sleep in H.
    apply IH in H. destruct H as (n & Hn & [Hlow Hhigh] & ->).
    exists (S n). split; [lia|]. split.
    + split.
      * intros [|k] Hk.
        -- cbn [polls repeat List.concat]. now rewrite app_nil_r.
        -- rewrite polls_S. specialize (Hlow k ltac:(lia)).
           norm_hist_in Hlow. exact Hlow.
      * rewrite polls_S. norm_hist_in Hhigh. exact Hhigh.
    + rewrite polls_S. norm_hist. reflexivity.
Qed.

Lemma writeByte_spec env fuel i b h res h' :
  writeByte env fuel i b h = Some (res, h') <->
  exists n,
    (n < fuel)%nat
    /\ stretched env i (h ++ writeByte_prefix i b) n
    /\ res = (acked env i h b n, None)
    /\ h' = h ++ writeByte_events i b n.
Proof.
  split.
  - unfold writeByte.
    unfold bind at 1. unfold sleepHalfCycle at 1, time_Sleep at 1.
    erewrite bind_run by apply write_bits_run.
    unfold bind at 1. unfold sleepHalfCycle at 1, time_Sleep at 1.
    unfold bind at 1. unfold writeSclOpenDrain at 1, pin_In at 1.
    unfold bind at 1. unfold writeSdaOpenDrain at 1, pin_In at 1.
    intros H. apply bind_inv in H. destruct H as (u & h1 & Hs & H).
    apply clock_stretch_inv_stretched in Hs.
    destruct Hs as (n & Hn & Hst & ->).
    unfold bind, pin_Read, sleepHalfCycle, time_Sleep, writeSclOpenDrain,
      pin_Out, ret in H.
    apply Some_pair_inv in H. destruct H as [<- <-].
    exists n. split; [exact Hn|].
    split.
    { unfold writeByte_prefix. unfold stretched in *. norm_hist.
      norm_hist_in Hst. exact Hst. }
    split.
    { unfold acked, writeByte_prefix. norm_hist. reflexivity. }
    unfold writeByte_events, writeByte_prefix, writeByte_suffix, Low.
    norm_hist. reflexivity.
  - intros (n & Hn & [Hlow Hhigh] & -> & ->).
    unfold acked.
    apply writeByte_run; try assumption.
    + intros k Hk. specialize (Hlow k Hk). norm_hist_in Hlow. exact Hlow.
    + norm_hist_in Hhigh. exact Hhigh.
Qed.

(** X3: [writeByte] returns exactly when the slave releases the clock
    within the fuel: then it has polled the clock [n + 1] times, its
    history is the eight data pulses and the ninth clock, its error is
    nil and its acknowledgement is the data line reading low. *)
Theorem writeByte_returns_iff env fuel i b h res h' :
  writeByte env fuel i b h = Some (res, h') <->
  exists n,
    (n < fuel)%nat
    /\ stretched env i (h ++ writeByte_prefix i b) n
    /\ res = (acked env i h b n, None)
    /\ h' = h ++ writeByte_events i b n.
Proof. exact (writeByte_spec env fuel i b h res h'). Qed.

Lemma writeByte_stuck env i b h :
  clock_stuck_low env i -> forall fuel, writeByte env fuel i b h = None.
Proof.
  intros Hstuck fuel.
  destruct (writeByte env fuel i b h) as [[res h']|] eqn:H; [|reflexivity].
  apply writeByte_spec in H.
  destruct H as (n & _ & [_ Hhigh] & _).
  rewrite Hstuck in Hhigh. discriminate.
Qed.

(** X4: the stretching loop has no timeout.  If the clock reads low for
    ever, [writeByte] does not return, whatever the fuel, and neither
    does a transaction that has a byte to write: one with an address up
    to 0xFF, or with the address skipped and a non-empty write buffer. *)
Theorem stuck_clock_blocks_transaction t env i addr w r h :
  clock_stuck_low env i ->
  addr <= 0xFF \/ (addr = SkipAddr /\ w <> []) ->
  forall fuel,
    (forall b, writeByte env fuel i b h = None)
    /\ run_transaction t env fuel i addr w r h = None.
Proof.
  intros Hstuck Hbyte fuel.
  split; [intros b; now apply writeByte_stuck|].
  assert (Hwc : forall b h0, write_checked env fuel i b h0 = None).
  { intros b h0. unfold write_checked, bind.
    now rewrite writeByte_stuck. }
  assert (Hwa : forall h0, w <> [] -> write_all env fuel i w h0 = None).
  { intros h0 Hw. destruct w as [|b w']; [congruence|].
    cbn [write_all]. unfold bind. now rewrite Hwc. }
  assert (Hcase : (addr =? SkipAddr) = false /\ (addr >? 255) = false
                  \/ (addr =? SkipAddr) = true /\ w <> []).
  { destruct Hbyte as [Hle | [-> Hw]].
    - left. split; [apply Z.eqb_neq; unfold SkipAddr; lia|].
      rewrite Z.gtb_ltb. apply Z.ltb_ge. lia.
    - right. split; [reflexivity|exact Hw]. }
  destruct t; cbn [run_transaction].
  - unfold Tx. erewrite bind_run by apply start_run.
    unfold bind at 1.
    replace (Tx_body env fuel i addr w r (h ++ start_events i)) with
      (@None ((option error * list Z) * history)); [reflexivity|].
    symmetry. unfold Tx_body.
    destruct Hcase as [[Hs Hc] | [Hs Hw]]; rewrite Hs; cbn [negb].
    + rewrite Hc. unfold bind at 1. now rewrite Hwc.
    + unfold bind at 1. unfold ret at 1. unfold bind at 1.
      now rewrite Hwa.
  - rewrite ReadRepeatedStart_prefix_run.
    unfold bind at 1.
    replace (ReadRepeatedStart_body env fuel i addr w r
               (h ++ wake_events i ++ start_events i)) with
      (@None ((option error * list Z) * history)); [reflexivity|].
    symmetry. unfold ReadRepeatedStart_body.
    destruct Hcase as [[Hs Hc] | [Hs Hw]]; rewrite Hs; cbn [negb].
    + rewrite Hc. unfold bind at 1. unfold bind at 1. now rewrite Hwc.
    + unfold bind at 1. unfold ret at 1. unfold bind at 1.
      now rewrite Hwa.
Qed.

Lemma stuck_clock_blocks_transaction_witness :
  clock_stuck_low stuck_slave bus
  /\ (forall b, writeByte stuck_slave 1000 bus b [] = None)
  /\ run_transaction RepeatedStart stuck_slave 1000 bus 0x0B [0x0D] [7] [] = None.
Proof.
  assert (Hstuck : clock_stuck_low stuck_slave bus) by (intros h; reflexivity).
  split; [exact Hstuck|].
  apply (stuck_clock_blocks_transaction RepeatedStart stuck_slave bus 0x0B
           [0x0D] [7] [] Hstuck).
  left. lia.
Defined.

(** ** readByte, as a function of the eight samples *)

Lemma byte_of_bits_msb_first b :
  0 <= b < 256 -> byte_of_bits (bits_msb_first b) = b.
Proof.
  intros Hb.
  assert (H : forallb (fun n => byte_of_bits (bits_msb_first (Z.of_nat n))
                                =? Z.of_nat n) (seq 0 256) = true)
    by (vm_compute; reflexivity).
  rewrite forallb_forall in H.
  specialize (H (Z.to_nat b)). rewrite Z2Nat.id in H by lia.
  apply Z.eqb_eq, H, in_seq. lia.
Qed.

Lemma bits_msb_first_of_bits bs :
  List.length bs = 8%nat ->
  bits_msb_first (byte_of_bits bs) = bs /\ 0 <= byte_of_bits bs < 256.
Proof.
  intros Hlen.
  do 9 (destruct bs as [|? bs]; try discriminate).
  repeat match goal with b : bool |- _ => destruct b end;
    vm_compute; repeat split; congruence.
Qed.

Lemma samples_length env i h : List.length (samples env i h) = 8%nat.
Proof. reflexivity. Qed.

Lemma readByte_value env i h :
  readByte env i h =
  Some (byte_of_bits (samples env i h), h ++ readByte_events i).
Proof.
  destruct (readByte_run env i h) as (b & Hrun & Hrange & Hbits).
  rewrite Hrun. unfold samples. rewrite <- Hbits.
  now rewrite byte_of_bits_msb_first.
Qed.

Lemma reads_events_S i n :
  reads_events i (S n) = readByte_events i ++ reads_events i n.
Proof. reflexivity. Qed.

Lemma read_all_value env i r :
  forall h,
    read_all env i r h =
    Some (reads env i (List.length r) h, h ++ reads_events i (List.length r)).
Proof.
  induction r as [|x r IH]; intros h.
  - cbn. unfold ret, reads_events. cbn. now rewrite app_nil_r.
  - cbn [read_all List.length reads].
    erewrite bind_run by apply readByte_value.
    erewrite bind_run by apply IH.
    unfold ret. rewrite reads_events_S. now rewrite <- app_assoc.
Qed.

Lemma reads_length env i n : forall h, List.length (reads env i n h) = n.
Proof.
  induction n as [|n IH]; intros h; [reflexivity|].
  cbn [reads List.length]. now rewrite IH.
Qed.

Lemma reads_range env i n :
  forall h, Forall (fun b => 0 <= b < 256) (reads env i n h).
Proof.
  induction n as [|n IH]; intros h; [constructor|].
  cbn [reads]. constructor; [|apply IH].
  apply bits_msb_first_of_bits, samples_length.
Qed.

(** X13: [readByte] always returns, and its value is the number whose
    binary digits, most significant first, are the eight levels sampled
    on the data line, a byte between 0 and 255.  So a byte that the slave
    shifts out most significant bit first is the byte returned. *)
Theorem readByte_decodes_samples env i h :
  readByte env i h =
    Some (byte_of_bits (samples env i h), h ++ readByte_events i)
  /\ 0 <= byte_of_bits (samples env i h) < 256
  /\ bits_msb_first (byte_of_bits (samples env i h)) = samples env i h
  /\ forall v,
      (0 <=? v) && (v <? 256) = true ->
      samples env i h = bits_msb_first v ->
      readByte env i h = Some (v, h ++ readByte_events i).
Proof.
  split; [apply readByte_value|].
  destruct (bits_msb_first_of_bits (samples env i h) (samples_length env i h))
    as [Hbits Hrange].
  split; [assumption|]. split; [assumption|].
  intros v Hv Hs. rewrite readByte_value, Hs.
  apply andb_prop in Hv. destruct Hv as [H0 H1].
  apply Z.leb_le in H0. apply Z.ltb_lt in H1.
  now rewrite byte_of_bits_msb_first by lia.
Qed.

Lemma readByte_decodes_samples_witness :
  (0 <=? 57) && (57 <? 256) = true
  /\ samples (shifting_slave 57) bus [] = bits_msb_first 57
  /\ readByte (shifting_slave 57) bus [] = Some (57, [] ++ readByte_events bus).
Proof.
  assert (Hs : samples (shifting_slave 57) bus [] = bits_msb_first 57)
    by (vm_compute; reflexivity).
  split; [reflexivity|]. split; [exact Hs|].
  destruct (readByte_decodes_samples (shifting_slave 57) bus [])
    as (_ & _ & _ & H).
  apply H; [reflexivity|exact Hs].
Defined.

(** ** The write phase *)

Lemma write_checked_inv_acked env fuel i b h e h' :
  write_checked env fuel i b h = Some (e, h') ->
  exists n,
    (n < fuel)%nat
    /\ stretched env i (h ++ writeByte_prefix i b) n
    /\ e = (if acked env i h b n then None else Some ErrNACK)
    /\ h' = h ++ writeByte_events i b n.
Proof.
  unfold write_checked. intros H.
  apply bind_inv in H. destruct H as ([ack err] & h1 & Hw & H).
  apply writeByte_spec in Hw.
  destruct Hw as (n & Hn & Hst & Hres & ->).
  apply pair_equal_spec in Hres. destruct Hres as [-> ->].
  exists n. split; [exact Hn|]. split; [exact Hst|].
  destruct (acked env i h b n); cbn [negb] in H; unfold ret in H;
    apply Some_pair_inv in H; destruct H as [<- <-]; auto.
Qed.

Lemma write_all_outcome env fuel i w :
  forall h e h',
    write_all env fuel i w h = Some (e, h') ->
    exists ns,
      (e = None
       /\ write_phase env i w ns h
       /\ h' = h ++ writes_events i w ns)
      \/ (exists j,
             (j < List.length w)%nat
             /\ e = Some ErrNACK
             /\ write_phase env i (firstn j w) ns h
             /\ acked env i (h ++ writes_events i (firstn j w) ns)
                      (nth j w 0) (nth j ns O) = false
             /\ h' = h ++ writes_events i (firstn (S j) w) ns).
Proof.
  induction w as [|b w IH]; intros h e h' H.
  - cbn in H. unfold ret in H. apply Some_pair_inv in H. destruct H as [<- <-].
    exists []. left. cbn. rewrite app_nil_r. auto.
  - cbn [write_all] in H. apply bind_inv in H.
    destruct H as (e1 & h1 & Hc & H).
    apply write_checked_inv_acked in Hc.
    destruct Hc as (n & _ & Hst & -> & ->).
    destruct (acked env i h b n) eqn:Hack.
    + apply IH in H. destruct H as (ns & [(-> & Hph & ->) | (j & Hj & -> & Hph & Hnack & ->)]).
      * exists (n :: ns). left. cbn [write_phase writes_events hd tl].
        split; [reflexivity|]. split; [auto|]. now rewrite <- app_assoc.
      * exists (n :: ns). right. exists (S j).
        cbn [List.length firstn write_phase writes_events hd tl nth].
        split; [lia|]. split; [reflexivity|]. split; [auto|].
        split; [now rewrite app_assoc|]. now rewrite <- app_assoc.
    + unfold ret in H. apply Some_pair_inv in H. destruct H as [<- <-].
      exists [n]. right. exists O.
      cbn [List.length firstn write_phase writes_events hd tl nth].
      rewrite !app_nil_r.
      split; [lia|]. split; [reflexivity|]. split; [exact I|].
      split; [exact Hack|reflexivity].
Qed.

(** X5: the write phase stops at the first byte that is not
    acknowledged.  When [write_all] returns nil, every byte of [w] was
    written and acknowledged; when it returns an error, the error is NACK,
    the bytes before some index [j] were acknowledged, byte [j] was
    written and not acknowledged, and no later byte was written. *)
Theorem write_all_stops_at_first_nack env fuel i w :
  forall h e h',
    write_all env fuel i w h = Some (e, h') ->
    exists ns,
      (e = None
       /\ write_phase env i w ns h
       /\ h' = h ++ writes_events i w ns)
      \/ (exists j,
             (j < List.length w)%nat
             /\ e = Some ErrNACK
             /\ write_phase env i (firstn j w) ns h
             /\ acked env i (h ++ writes_events i (firstn j w) ns)
                      (nth j w 0) (nth j ns O) = false
             /\ h' = h ++ writes_events i (firstn (S j) w) ns).
Proof. exact (write_all_outcome env fuel i w). Qed.

Lemma write_all_stops_at_first_nack_witness :
  exists ns,
    (Some ErrNACK = None
     /\ write_phase (acks_first 1) bus [0x0D; 0x0E; 0x0F] ns []
     /\ writeByte_events bus 0x0D 0 ++ writeByte_events bus 0x0E 0
        = [] ++ writes_events bus [0x0D; 0x0E; 0x0F] ns)
    \/ (exists j,
           (j < List.length [0x0D; 0x0E; 0x0F])%nat
           /\ Some ErrNACK = Some ErrNACK
           /\ write_phase (acks_first 1) bus (firstn j [0x0D; 0x0E; 0x0F]) ns []
           /\ acked (acks_first 1) bus
                 ([] ++ writes_events bus (firstn j [0x0D; 0x0E; 0x0F]) ns)
                 (nth j [0x0D; 0x0E; 0x0F] 0) (nth j ns O) = false
           /\ writeByte_events bus 0x0D 0 ++ writeByte_events bus 0x0E 0
              = [] ++ writes_events bus (firstn (S j) [0x0D; 0x0E; 0x0F]) ns).
Proof.
  apply (write_all_stops_at_first_nack (acks_first 1) 1 bus [0x0D; 0x0E; 0x0F]
           [] (Some ErrNACK)).
  vm_compute. reflexivity.
Defined.

(** ** The shape of a transaction *)

(** Writing the bytes [bs], then reading into [r] unless a byte was not
    acknowledged: what both transaction bodies come down to. *)
Lemma write_then_read_outcome env fuel i bs r h e r' h' :
  (e0 <- write_all env fuel i bs ;;
   match e0 with
   | Some err => ret (Some err, r)
   | None => r0 <- read_all env i r ;; ret (None, r0)
   end) h = Some ((e, r'), h') ->
  transfer_outcome env i bs r h e r' h'.
Proof.
  intros H. apply bind_inv in H. destruct H as (e0 & h1 & Hw & H).
  apply write_all_outcome in Hw.
  destruct Hw as (ns & [(-> & Hph & ->) | (j & Hj & -> & Hph & Hnack & ->)]);
    exists ns.
  - left. erewrite bind_run in H by apply read_all_value.
    unfold ret in H. apply Some_pair_inv in H. destruct H as [H <-].
    apply pair_equal_spec in H. destruct H as [<- <-].
    split; [reflexivity|]. split; [exact Hph|]. split; [reflexivity|].
    now rewrite <- app_assoc.
  - right. exists j. unfold ret in H. apply Some_pair_inv in H.
    destruct H as [H <-]. apply pair_equal_spec in H. destruct H as [<- <-].
    unfold nacked_at. auto.
Qed.

Lemma Tx_body_SkipAddr env fuel i w r h :
  Tx_body env fuel i SkipAddr w r h =
  (e0 <- write_all env fuel i w ;;
   match e0 with
   | Some err => ret (Some err, r)
   | None => r0 <- read_all env i r ;; ret (None, r0)
   end) h.
Proof. reflexivity. Qed.

Lemma Tx_body_address env fuel i addr w r h :
  (addr =? SkipAddr) = false -> (addr >? 0xFF) = false ->
  Tx_body env fuel i addr w r h =
  (e0 <- write_all env fuel i
           (u8 (if Z.of_nat (List.length r) =? 0
                then Z.lor (u16 (Z.shiftl addr 1)) 1
                else u16 (Z.shiftl addr 1)) :: w) ;;
   match e0 with
   | Some err => ret (Some err, r)
   | None => r0 <- read_all env i r ;; ret (None, r0)
   end) h.
Proof.
  intros Hs Hc. unfold Tx_body. rewrite Hs, Hc. cbn [negb write_all].
  unfold bind.
  destruct (write_checked env fuel i _ h) as [[[err|] h1]|]; reflexivity.
Qed.

Lemma seven_bit_address addr :
  0 <= addr <= 0x7F ->
  (addr =? SkipAddr) = false
  /\ (addr >? 0xFF) = false
  /\ u16 (Z.shiftl addr 1) = 2 * addr
  /\ (2 * addr =? SkipAddr) = false
  /\ (2 * addr >? 0xFF) = false
  /\ u8 (2 * addr) = 2 * addr
  /\ u8 (Z.lor (2 * addr) 1) = 2 * addr + 1.
Proof.
  intros Ha.
  assert (H : forallb (fun n =>
                let a := Z.of_nat n in
                negb (a =? SkipAddr) && negb (a >? 0xFF)
                && (u16 (Z.shiftl a 1) =? 2 * a)
                && negb (2 * a =? SkipAddr) && negb (2 * a >? 0xFF)
                && (u8 (2 * a) =? 2 * a)
                && (u8 (Z.lor (2 * a) 1) =? 2 * a + 1))%bool
              (seq 0 128) = true) by (vm_compute; reflexivity).
  rewrite forallb_forall in H.
  specialize (H (Z.to_nat addr)). rewrite Z2Nat.id in H by lia.
  cbv zeta in H.
  assert (Hin : In (Z.to_nat addr) (seq 0 128)) by (apply in_seq; lia).
  specialize (H Hin).
  repeat (apply andb_prop in H; destruct H as [H ?]).
  repeat match goal with
         | X : negb _ = true |- _ => apply negb_true_iff in X
         | X : (_ =? _) = true |- _ => apply Z.eqb_eq in X
         end.
  repeat split; assumption.
Qed.

Lemma Tx_unfold env fuel i addr w r h :
  Tx env fuel i addr w r h =
  match Tx_body env fuel i addr w r (h ++ start_events i) with
  | Some (res, h1) => Some (res, h1 ++ stop_events i)
  | None => None
  end.
Proof.
  unfold Tx. erewrite bind_run by apply start_run.
  unfold bind at 1.
  destruct (Tx_body env fuel i addr w r (h ++ start_events i))
    as [[res h1]|]; [|reflexivity].
  erewrite bind_run by apply stop_run. reflexivity.
Qed.

Lemma ReadRepeatedStart_unfold env fuel i addr w r h :
  ReadRepeatedStart env fuel i addr w r h =
  match ReadRepeatedStart_body env fuel i addr w r
          (h ++ wake_events i ++ start_events i) with
  | Some (res, h1) => Some (res, h1 ++ stop_events i)
  | None => None
  end.
Proof.
  rewrite ReadRepeatedStart_prefix_run.
  unfold bind at 1.
  destruct (ReadRepeatedStart_body env fuel i addr w r
              (h ++ wake_events i ++ start_events i))
    as [[res h1]|]; [|reflexivity].
  erewrite bind_run by apply stop_run. reflexivity.
Qed.

(** X2: an address above 0xFF other than [SkipAddr] is rejected before
    any byte is transferred.  Whatever the pins and the slave do, the call
    returns the invalid-address error and leaves [r] untouched; [Tx] has
    issued a start and a stop condition and nothing else,
    [ReadRepeatedStart] the wake pulse, a start and a stop. *)
Theorem wide_address_is_rejected env fuel i addr w r h :
  0xFF < addr -> addr <> SkipAddr ->
  Tx env fuel i addr w r h =
    Some ((Some ErrInvalidAddress, r),
          h ++ start_events i ++ stop_events i)
  /\ ReadRepeatedStart env fuel i addr w r h =
    Some ((Some ErrInvalidAddress, r),
          h ++ wake_events i ++ start_events i ++ stop_events i).
Proof.
  intros Hwide Hskip.
  assert (Hs : (addr =? SkipAddr) = false) by now apply Z.eqb_neq.
  assert (Hc : (addr >? 0xFF) = true)
    by (rewrite Z.gtb_ltb; apply Z.ltb_lt; lia).
  split.
  - rewrite Tx_unfold. unfold Tx_body. rewrite Hs, Hc. cbn [negb].
    unfold bind, ret. now rewrite <- app_assoc.
  - rewrite ReadRepeatedStart_unfold. unfold ReadRepeatedStart_body.
    rewrite Hs, Hc. cbn [negb]. unfold bind, ret.
    now rewrite <- !app_assoc.
Qed.

Lemma wide_address_is_rejected_witness :
  Tx nack_slave 0 bus 0x100 [0x0D] [7] [] =
    Some ((Some ErrInvalidAddress, [7]),
          [] ++ start_events bus ++ stop_events bus)
  /\ ReadRepeatedStart nack_slave 0 bus 0x100 [0x0D] [7] [] =
    Some ((Some ErrInvalidAddress, [7]),
          [] ++ wake_events bus ++ start_events bus ++ stop_events bus).
Proof.
  apply (wide_address_is_rejected nack_slave 0 bus 0x100 [0x0D] [7] []).
  - reflexivity.
  - discriminate.
Defined.

Lemma Tx_7bit_outcome env fuel i addr w r h e r' h' :
  0 <= addr <= 0x7F ->
  Tx env fuel i addr w r h = Some ((e, r'), h') ->
  exists h1,
    h' = h1 ++ stop_events i
    /\ transfer_outcome env i
         (2 * addr + (if Z.of_nat (List.length r) =? 0 then 1 else 0) :: w)
         r (h ++ start_events i) e r' h1.
Proof.
  intros Ha H.
  destruct (seven_bit_address addr Ha) as (Hs & Hc & Hsh & _ & _ & Hu & Hl).
  rewrite Tx_unfold in H.
  destruct (Tx_body env fuel i addr w r (h ++ start_events i))
    as [[res h1]|] eqn:Hb; [|discriminate].
  apply Some_pair_inv in H. destruct H as [-> <-].
  rewrite Tx_body_address in Hb by assumption.
  rewrite Hsh in Hb.
  replace (u8 (if Z.of_nat (List.length r) =? 0
               then Z.lor (2 * addr) 1 else 2 * addr))
    with (2 * addr + (if Z.of_nat (List.length r) =? 0 then 1 else 0)) in Hb
    by (destruct (Z.of_nat (List.length r) =? 0); [now rewrite Hl | rewrite Hu; lia]).
  exists h1. split; [reflexivity|].
  now apply write_then_read_outcome in Hb.
Qed.



Lemma write_restart_read_outcome env fuel i bs1 bs2 r h e r' h' :
  (e0 <- write_all env fuel i bs1 ;;
   match e0 with
   | Some err => ret (Some err, r)
   | None =>
       start env i ;;
       e2 <- write_all env fuel i bs2 ;;
       match e2 with
       | Some err => ret (Some err, r)
       | None => r0 <- read_all env i r ;; ret (None, r0)
       end
   end) h = Some ((e, r'), h') ->
  repeated_start_outcome env i bs1 bs2 r h e r' h'.
Proof.
  intros H. apply bind_inv in H. destruct H as (e0 & h1 & Hw & H).
  apply write_all_outcome in Hw.
  destruct Hw as (ns & [(-> & Hph & ->) | (j & Hj & -> & Hph & Hnack & ->)]);
    exists ns.
  - right. split; [exact Hph|].
    erewrite bind_run in H by apply start_run.
    apply write_then_read_outcome in H.
    now rewrite <- app_assoc in H.
  - left. exists j. unfold ret in H. apply Some_pair_inv in H.
    destruct H as [H <-]. apply pair_equal_spec in H. destruct H as [<- <-].
    unfold nacked_at. auto.
Qed.

Lemma ReadRepeatedStart_body_SkipAddr env fuel i w r h :
  ReadRepeatedStart_body env fuel i SkipAddr w r h =
  (e0 <- write_all env fuel i w ;;
   match e0 with
   | Some err => ret (Some err, r)
   | None =>
       start env i ;;
       e2 <- write_all env fuel i [] ;;
       match e2 with
       | Some err => ret (Some err, r)
       | None => r0 <- read_all env i r ;; ret (None, r0)
       end
   end) h.
Proof.
  unfold ReadRepeatedStart_body.
  change (negb (SkipAddr =? SkipAddr)) with false. cbv iota.
  unfold bind at 1. unfold ret at 1.
  apply bind_ext; [reflexivity|].
  intros [err|] h1; [reflexivity|].
  apply bind_ext; [reflexivity|]. intros _ h2. reflexivity.
Qed.

Lemma ReadRepeatedStart_body_address env fuel i addr w r h :
  0 <= addr <= 0x7F ->
  ReadRepeatedStart_body env fuel i addr w r h =
  (e0 <- write_all env fuel i (2 * addr :: w) ;;
   match e0 with
   | Some err => ret (Some err, r)
   | None =>
       start env i ;;
       e2 <- write_all env fuel i [2 * addr + 1] ;;
       match e2 with
       | Some err => ret (Some err, r)
       | None => r0 <- read_all env i r ;; ret (None, r0)
       end
   end) h.
Proof.
  intros Ha.
  destruct (seven_bit_address addr Ha) as (Hs & Hc & Hsh & Hs2 & Hc2 & Hu & Hl).
  unfold ReadRepeatedStart_body. rewrite Hs, Hc. cbn [negb write_all].
  rewrite Hsh, Hu.
  unfold bind, ret.
  destruct (write_checked env fuel i (2 * addr) h) as [[[err|] h1]|];
    [reflexivity| |reflexivity].
  destruct (write_all env fuel i w h1) as [[[err|] h2]|];
    [reflexivity| |reflexivity].
  destruct (start env i h2) as [[u h3]|]; [|reflexivity].
  rewrite Hs2, Hc2, Hl. cbn [negb].
  destruct (write_checked env fuel i (2 * addr + 1) h3) as [[[err|] h4]|];
    reflexivity.
Qed.

Lemma ReadRepeatedStart_7bit_outcome env fuel i addr w r h e r' h' :
  0 <= addr <= 0x7F ->
  ReadRepeatedStart env fuel i addr w r h = Some ((e, r'), h') ->
  exists h1,
    h' = h1 ++ stop_events i
    /\ repeated_start_outcome env i (2 * addr :: w) [2 * addr + 1] r
         (h ++ wake_events i ++ start_events i) e r' h1.
Proof.
  intros Ha H. rewrite ReadRepeatedStart_unfold in H.
  destruct (ReadRepeatedStart_body env fuel i addr w r
              (h ++ wake_events i ++ start_events i))
    as [[res h1]|] eqn:Hb; [|discriminate].
  apply Some_pair_inv in H. destruct H as [-> <-].
  rewrite ReadRepeatedStart_body_address in Hb by assumption.
  exists h1. split; [reflexivity|].
  now apply write_restart_read_outcome in Hb.
Qed.



Lemma SkipAddr_outcome t env fuel i w r h e r' h' :
  run_transaction t env fuel i SkipAddr w r h = Some ((e, r'), h') ->
  (exists h1,
      h' = h1 ++ stop_events i
      /\ match t with
         | StandardTx =>
             transfer_outcome env i w r (h ++ start_events i) e r' h1
         | RepeatedStart =>
             repeated_start_outcome env i w [] r
               (h ++ wake_events i ++ start_events i) e r' h1
         end)
  /\ Tx env fuel i SkipAddr [] [] h =
       Some ((None, []), h ++ start_events i ++ stop_events i)
  /\ ReadRepeatedStart env fuel i SkipAddr [] [] h =
       Some ((None, []),
             h ++ wake_events i ++ start_events i ++ start_events i
               ++ stop_events i).
Proof.
  intros H. split; [|split].
  - destruct t; cbn [run_transaction] in H.
    + rewrite Tx_unfold in H.
      destruct (Tx_body env fuel i SkipAddr w r (h ++ start_events i))
        as [[res h1]|] eqn:Hb; [|discriminate].
      apply Some_pair_inv in H. destruct H as [-> <-].
      rewrite Tx_body_SkipAddr in Hb.
      exists h1. split; [reflexivity|].
      now apply write_then_read_outcome in Hb.
    + rewrite ReadRepeatedStart_unfold in H.
      destruct (ReadRepeatedStart_body env fuel i SkipAddr w r
                  (h ++ wake_events i ++ start_events i))
        as [[res h1]|] eqn:Hb; [|discriminate].
      apply Some_pair_inv in H. destruct H as [-> <-].
      rewrite ReadRepeatedStart_body_SkipAddr in Hb.
      exists h1. split; [reflexivity|].
      now apply write_restart_read_outcome in Hb.
  - rewrite Tx_unfold, Tx_body_SkipAddr. cbn [write_all read_all].
    unfold bind, ret. now rewrite <- app_assoc.
  - rewrite ReadRepeatedStart_unfold, ReadRepeatedStart_body_SkipAddr.
    cbn [write_all read_all]. unfold bind at 1. unfold ret at 1.
    erewrite bind_run by apply start_run.
    unfold bind, ret. now rewrite <- !app_assoc.
Qed.



(** ** The read buffer *)

Lemma Tx_body_buffer env fuel i addr w r h e r' h' :
  Tx_body env fuel i addr w r h = Some ((e, r'), h') ->
  (e <> None /\ r' = r)
  \/ (e = None
      /\ exists h0, r' = reads env i (List.length r) h0
                    /\ h' = h0 ++ reads_events i (List.length r)).
Proof.
  unfold Tx_body. intros H.
  apply bind_inv in H. destruct H as (e1 & h1 & _ & H).
  destruct e1 as [err|].
  - unfold ret in H. apply Some_pair_inv in H. destruct H as [H _].
    apply pair_equal_spec in H. destruct H as [<- <-].
    left. split; [discriminate|reflexivity].
  - apply bind_inv in H. destruct H as (e2 & h2 & _ & H).
    destruct e2 as [err|].
    + unfold ret in H. apply Some_pair_inv in H. destruct H as [H _].
      apply pair_equal_spec in H. destruct H as [<- <-].
      left. split; [discriminate|reflexivity].
    + erewrite bind_run in H by apply read_all_value.
      unfold ret in H. apply Some_pair_inv in H. destruct H as [H <-].
      apply pair_equal_spec in H. destruct H as [<- <-].
      right. split; [reflexivity|]. exists h2. auto.
Qed.

Lemma ReadRepeatedStart_body_buffer env fuel i addr w r h e r' h' :
  ReadRepeatedStart_body env fuel i addr w r h = Some ((e, r'), h') ->
  (e <> None /\ r' = r)
  \/ (e = None
      /\ exists h0, r' = reads env i (List.length r) h0
                    /\ h' = h0 ++ reads_events i (List.length r)).
Proof.
  unfold ReadRepeatedStart_body. intros H.
  apply bind_inv in H. destruct H as ([e1 addr1] & h1 & _ & H).
  destruct e1 as [err|].
  - unfold ret in H. apply Some_pair_inv in H. destruct H as [H _].
    apply pair_equal_spec in H. destruct H as [<- <-].
    left. split; [discriminate|reflexivity].
  - apply bind_inv in H. destruct H as (e2 & h2 & _ & H).
    destruct e2 as [err|].
    + unfold ret in H. apply Some_pair_inv in H. destruct H as [H _].
      apply pair_equal_spec in H. destruct H as [<- <-].
      left. split; [discriminate|reflexivity].
    + apply bind_inv in H. destruct H as (u & h3 & _ & H).
      apply bind_inv in H. destruct H as (e3 & h4 & _ & H).
      destruct e3 as [err|].
      * unfold ret in H. apply Some_pair_inv in H. destruct H as [H _].
        apply pair_equal_spec in H. destruct H as [<- <-].
        left. split; [discriminate|reflexivity].
      * erewrite bind_run in H by apply read_all_value.
        unfold ret in H. apply Some_pair_inv in H. destruct H as [H <-].
        apply pair_equal_spec in H. destruct H as [<- <-].
        right. split; [reflexivity|]. exists h4. auto.
Qed.

Lemma transaction_buffer t env fuel i addr w r h e r' h' :
  run_transaction t env fuel i addr w r h = Some ((e, r'), h') ->
  (e <> None -> r' = r)
  /\ (e = None ->
      List.length r' = List.length r
      /\ Forall (fun b => 0 <= b < 256) r'
      /\ exists h0,
          r' = reads env i (List.length r) h0
          /\ h' = h0 ++ reads_events i (List.length r) ++ stop_events i).
Proof.
  intros H.
  assert (Hb : (e <> None /\ r' = r)
               \/ (e = None
                   /\ exists h0, r' = reads env i (List.length r) h0
                        /\ h' = h0 ++ reads_events i (List.length r)
                                   ++ stop_events i)).
  { destruct t; cbn [run_transaction] in H.
    - rewrite Tx_unfold in H.
      destruct (Tx_body env fuel i addr w r (h ++ start_events i))
        as [[res h1]|] eqn:Hb; [|discriminate].
      apply Some_pair_inv in H. destruct H as [-> <-].
      apply Tx_body_buffer in Hb.
      destruct Hb as [Hb | (He & h0 & Hr & ->)]; [now left|].
      right. split; [exact He|]. exists h0. now rewrite <- app_assoc.
    - rewrite ReadRepeatedStart_unfold in H.
      destruct (ReadRepeatedStart_body env fuel i addr w r
                  (h ++ wake_events i ++ start_events i))
        as [[res h1]|] eqn:Hb; [|discriminate].
      apply Some_pair_inv in H. destruct H as [-> <-].
      apply ReadRepeatedStart_body_buffer in Hb.
      destruct Hb as [Hb | (He & h0 & Hr & ->)]; [now left|].
      right. split; [exact He|]. exists h0. now rewrite <- app_assoc. }
  destruct Hb as [[Hne ->] | (-> & h0 & -> & ->)].
  - split; [reflexivity|]. intros He. contradiction.
  - split; [intros He; contradiction|]. intros _.
    split; [apply reads_length|]. split; [apply reads_range|].
    exists h0. auto.
Qed.

(** X9: for every address, a transaction that fails leaves the read
    buffer exactly as it was: no byte is read before the last check.  One
    that succeeds has filled every slot of the buffer with a byte between
    0 and 255, read by its last operations before the stop condition. *)
Theorem read_buffer_after_transaction t env fuel i addr w r h e r' h' :
  run_transaction t env fuel i addr w r h = Some ((e, r'), h') ->
  (e <> None -> r' = r)
  /\ (e = None ->
      List.length r' = List.length r
      /\ Forall (fun b => 0 <= b < 256) r'
      /\ exists h0,
          r' = reads env i (List.length r) h0
          /\ h' = h0 ++ reads_events i (List.length r) ++ stop_events i).
Proof. exact (transaction_buffer t env fuel i addr w r h e r' h'). Qed.

Lemma read_buffer_after_transaction_witness :
  (Some ErrNACK <> None -> [7; 7] = [7; 7])
  /\ (Some ErrNACK = None ->
      List.length [7; 7] = List.length [7; 7]
      /\ Forall (fun b => 0 <= b < 256) [7; 7]
      /\ exists h0,
          [7; 7] = reads nack_slave bus (List.length [7; 7]) h0
          /\ start_events bus ++ writeByte_events bus 0x16 0 ++ stop_events bus
             = h0 ++ reads_events bus (List.length [7; 7]) ++ stop_events bus).
Proof.
  apply (read_buffer_after_transaction StandardTx nack_slave 1 bus 0x0B
           [0x0D] [7; 7] []).
  vm_compute. reflexivity.
Defined.

(** ** New *)

(** X1: [New] configures the clock and then the data line, each with
    [In(PullUp, NoEdge)] followed by [Out(High)].  It returns the error of
    the first of these four calls that fails, unchanged, and issues no pin
    call after it; when none fails it returns the bus with
    [halfCycle = Period(f) / 2]. *)
Theorem New_stops_at_first_pin_error (Period : Z -> Z) env clk data f h :
  New env Period clk data f h =
  match first_error (New_answer env clk data h) 0 4 with
  | Some (k, err) =>
      Some (inl err, h ++ firstn (S k) (New_events clk data))
  | None =>
      Some (inr {| scl := clk; sda := data;
                   halfCycle := Z.quot (Period f) 2 |},
            h ++ New_events clk data)
  end.
Proof.
  unfold New, New_events, bind, pin_In, pin_Out, ret.
  cbn [first_error New_answer firstn]. norm_hist.
  destruct (in_result env h clk PullUp NoEdge);
    cbn [firstn]; norm_hist; [reflexivity|].
  destruct (out_result env _ clk High);
    cbn [firstn]; norm_hist; [reflexivity|].
  destruct (in_result env _ data PullUp NoEdge);
    cbn [firstn]; norm_hist; [reflexivity|].
  destruct (out_result env _ data High);
    cbn [firstn]; norm_hist; reflexivity.
Qed.

(** ** The lines between the phases *)

Lemma last_drive_from_polls p i n m :
  last_drive_from p (polls i n) m = m.
Proof.
  induction n as [|n IH]; [reflexivity|].
  rewrite polls_S. cbn [last_drive_from]. exact IH.
Qed.

Lemma eqb_pins i :
  scl i <> sda i ->
  String.eqb (scl i) (sda i) = false /\ String.eqb (sda i) (scl i) = false.
Proof.
  intros Hne. split; apply String.eqb_neq; congruence.
Qed.

(** X10: how the byte routines leave the lines, the two pins being
    distinct.  [writeByte], when it returns, leaves the clock driven low
    and the data line released; [readByte] leaves the clock released high
    and the data line driven low. *)
Theorem byte_routines_end_states env fuel i b h :
  scl i <> sda i ->
  (forall res h',
      writeByte env fuel i b h = Some (res, h') ->
      last_drive (scl i) h' = Some (Output Low)
      /\ last_drive (sda i) h' = Some (Input PullUp))
  /\ (exists v h',
         readByte env i h = Some (v, h')
         /\ last_drive (scl i) h' = Some (Input PullUp)
         /\ last_drive (sda i) h' = Some (Output Low)).
Proof.
  intros Hne. destruct (eqb_pins i Hne) as [Hcd Hdc]. split.
  - intros res h' H. apply writeByte_spec in H.
    destruct H as (n & _ & _ & _ & ->).
    unfold last_drive, writeByte_events, writeByte_prefix, writeByte_suffix.
    rewrite !last_drive_from_app, !last_drive_from_polls.
    unfold Low. cbn [last_drive_from].
    rewrite ?String.eqb_refl, ?Hcd, ?Hdc. split; reflexivity.
  - exists (byte_of_bits (samples env i h)), (h ++ readByte_events i).
    split; [apply readByte_value|].
    unfold last_drive, readByte_events, read_ack_events.
    rewrite !last_drive_from_app. unfold Low. cbn [last_drive_from].
    rewrite ?String.eqb_refl, ?Hcd, ?Hdc. split; reflexivity.
Qed.

Lemma byte_routines_end_states_witness :
  scl bus <> sda bus
  /\ last_drive (scl bus) ([] ++ writeByte_events bus 0xA5 0) = Some (Output Low)
  /\ last_drive (sda bus) ([] ++ writeByte_events bus 0xA5 0) = Some (Input PullUp).
Proof.
  assert (Hne : scl bus <> sda bus) by discriminate.
  split; [exact Hne|].
  destruct (byte_routines_end_states ack_slave 1 bus 0xA5 [] Hne) as [Hw _].
  apply (Hw (true, None)). vm_compute. reflexivity.
Defined.

(** ** Data validity *)


(** ** Data validity *)

Section DataValidity.

Variable i : I2C.
Hypothesis Hne : scl i <> sda i.













End DataValidity.



(** ** Duration *)

Lemma total_sleep_app h1 h2 :
  total_sleep (h1 ++ h2) = total_sleep h1 + total_sleep h2.
Proof.
  induction h1 as [|e h1 IH]; [reflexivity|].
  destruct e; cbn [app total_sleep]; lia.
Qed.

Lemma total_sleep_polls i n :
  total_sleep (polls i n) = time_Microsecond * Z.of_nat n.
Proof.
  induction n as [|n IH]; [reflexivity|].
  rewrite polls_S. cbn [total_sleep]. rewrite IH. unfold time_Microsecond. lia.
Qed.

Lemma total_sleep_writeByte i b n :
  total_sleep (writeByte_events i b n) = time_Microsecond * (20 + Z.of_nat n).
Proof.
  unfold writeByte_events, writeByte_prefix, writeByte_suffix.
  rewrite !total_sleep_app, total_sleep_polls.
  replace (total_sleep (flat_map (write_bit_events i b) [0; 1; 2; 3; 4; 5; 6; 7]))
    with (16 * time_Microsecond).
  - cbn [total_sleep]. unfold time_Microsecond. lia.
  - unfold write_bit_events, sda_drive. cbn [flat_map app].
    repeat match goal with
           | |- context [Z.testbit b ?k] => destruct (Z.testbit b k)
           end; reflexivity.
Qed.

Lemma total_sleep_reads i n :
  total_sleep (reads_events i n) = time_Microsecond * (18 * Z.of_nat n).
Proof.
  induction n as [|n IH]; [reflexivity|].
  rewrite reads_events_S, total_sleep_app, IH.
  replace (total_sleep (readByte_events i)) with (18 * time_Microsecond)
    by reflexivity.
  unfold time_Microsecond. lia.
Qed.

Lemma stretched_never env i h n :
  never_stretches env i -> stretched env i h n -> n = O.
Proof.
  intros Hnever [Hlow _]. destruct n as [|n]; [reflexivity|].
  specialize (Hlow O ltac:(lia)). rewrite Hnever in Hlow. discriminate.
Qed.

Lemma total_sleep_writes env i bs :
  never_stretches env i ->
  forall ns h,
    write_phase env i bs ns h ->
    total_sleep (writes_events i bs ns)
    = time_Microsecond * (20 * Z.of_nat (List.length bs)).
Proof.
  intros Hnever. induction bs as [|b bs IH]; intros ns h Hph; [reflexivity|].
  cbn [write_phase] in Hph. destruct Hph as (Hst & _ & Hph).
  apply (stretched_never env i _ _ Hnever) in Hst.
  cbn [writes_events List.length]. rewrite Hst in *.
  rewrite total_sleep_app, total_sleep_writeByte, (IH _ _ Hph).
  unfold time_Microsecond. lia.
Qed.

(** X12: how long a transaction sleeps.  With a slave that never holds
    the clock, a successful transaction to a 7-bit address sleeps one
    microsecond per wait whatever speed was configured: 20 per byte
    written (the address byte and the bytes of [w]), 18 per byte read,
    plus 4 for the start and stop conditions of [Tx], or 31 for the wake
    pulse, both start conditions, the second address byte and the stop
    condition of [ReadRepeatedStart]. *)
Theorem transaction_duration t env fuel i addr w r h r' h' :
  never_stretches env i ->
  0 <= addr <= 0x7F ->
  run_transaction t env fuel i addr w r h = Some ((None, r'), h') ->
  exists evs,
    h' = h ++ evs
    /\ total_sleep evs =
       time_Microsecond
       * ((match t with StandardTx => 4 | RepeatedStart => 31 end)
          + 20 * (1 + Z.of_nat (List.length w))
          + 18 * Z.of_nat (List.length r)).
Proof.
  intros Hnever Ha H. destruct t; cbn [run_transaction] in H.
  - apply Tx_7bit_outcome in H; [|exact Ha].
    destruct H as (h1 & -> & ns & [(_ & Hph & _ & ->) | (j & _ & He & _)]);
      [|discriminate].
    eexists. split; [rewrite <- !app_assoc; reflexivity|].
    rewrite !total_sleep_app, (total_sleep_writes env i _ Hnever _ _ Hph),
      total_sleep_reads.
    cbn [List.length]. rewrite Nat2Z.inj_succ.
    replace (total_sleep (start_events i)) with time_Microsecond by reflexivity.
    replace (total_sleep (stop_events i)) with (3 * time_Microsecond)
      by reflexivity.
    unfold time_Microsecond. lia.
  - apply ReadRepeatedStart_7bit_outcome in H; [|exact Ha].
    destruct H as (h1 & -> & ns & [(j & _ & He & _) | (Hph & Hout)]);
      [discriminate|].
    destruct Hout as (ms & [(_ & Hph2 & _ & ->) | (j & _ & He & _)]);
      [|discriminate].
    eexists. split; [rewrite <- !app_assoc; reflexivity|].
    rewrite !total_sleep_app, (total_sleep_writes env i _ Hnever _ _ Hph),
      (total_sleep_writes env i _ Hnever _ _ Hph2), total_sleep_reads.
    cbn [List.length]. rewrite Nat2Z.inj_succ.
    replace (total_sleep (wake_events i)) with (6 * time_Microsecond)
      by reflexivity.
    replace (total_sleep (start_events i)) with time_Microsecond by reflexivity.
    replace (total_sleep (stop_events i)) with (3 * time_Microsecond)
      by reflexivity.
    unfold time_Microsecond. lia.
Qed.

Lemma transaction_duration_witness :
  never_stretches ack_slave bus
  /\ 0 <= 0x0B <= 0x7F
  /\ exists evs,
      wake_events bus ++ start_events bus
        ++ writeByte_events bus 0x16 0 ++ writeByte_events bus 0x0D 0
        ++ start_events bus ++ writeByte_events bus 0x17 0
        ++ reads_events bus 1 ++ stop_events bus
      = [] ++ evs
      /\ total_sleep evs =
         time_Microsecond
         * (31 + 20 * (1 + Z.of_nat (List.length [0x0D]))
            + 18 * Z.of_nat (List.length [7])).
Proof.
  assert (Hnever : never_stretches ack_slave bus) by (intros h; reflexivity).
  split; [exact Hnever|]. split; [lia|].
  apply (transaction_duration RepeatedStart ack_slave 1 bus 0x0B [0x0D] [7] []
           [0]).
  - exact Hnever.
  - lia.
  - vm_compute. reflexivity.
Defined.

(** ** What the slave sees of a written byte *)





(** ** Success *)

Lemma always_acks_not_nacked env i bs ns h j :
  always_acks env i -> ~ nacked_at env i bs ns h j.
Proof.
  intros Hack (_ & _ & Hn). rewrite Hack in Hn. discriminate.
Qed.

(** X15: against a slave that releases the clock in time and
    acknowledges every byte, a transaction to a 7-bit address, or with
    the address skipped, returns success, with one byte read per slot of
    the buffer. *)
Theorem transaction_succeeds_when_acknowledged t env fuel i addr w r h :
  responsive env i fuel ->
  always_acks env i ->
  0 <= addr <= 0x7F \/ addr = SkipAddr ->
  exists r' h',
    run_transaction t env fuel i addr w r h = Some ((None, r'), h')
    /\ List.length r' = List.length r.
Proof.
  intros Hresp Hack Haddr.
  destruct (transaction_returns t env fuel i addr w r h Hresp)
    as ([e r'] & h' & Hrun).
  assert (He : e = None).
  { destruct Haddr as [Ha | ->]; destruct t; cbn [run_transaction] in Hrun.
    - apply Tx_7bit_outcome in Hrun; [|exact Ha].
      destruct Hrun as (h1 & _ & ns & [(He & _) | (j & Hn & _)]);
        [exact He|].
      now apply always_acks_not_nacked in Hn.
    - apply ReadRepeatedStart_7bit_outcome in Hrun; [|exact Ha].
      destruct Hrun as (h1 & _ & ns & [(j & Hn & _) | (_ & Hout)]).
      + now apply always_acks_not_nacked in Hn.
      + destruct Hout as (ms & [(He & _) | (j & Hn & _)]); [exact He|].
        now apply always_acks_not_nacked in Hn.
    - apply (SkipAddr_outcome StandardTx) in Hrun.
      destruct Hrun as ((h1 & _ & ns & [(He & _) | (j & Hn & _)]) & _);
        [exact He|].
      now apply always_acks_not_nacked in Hn.
    - apply (SkipAddr_outcome RepeatedStart) in Hrun.
      destruct Hrun as ((h1 & _ & ns & [(j & Hn & _) | (_ & Hout)]) & _).
      + now apply always_acks_not_nacked in Hn.
      + destruct Hout as (ms & [(He & _) | (j & Hn & _)]); [exact He|].
        now apply always_acks_not_nacked in Hn. }
  subst e. exists r', h'. split; [exact Hrun|].
  apply transaction_buffer in Hrun.
  destruct Hrun as [_ Hok]. now destruct (Hok eq_refl) as [Hlen _].
Qed.

Lemma transaction_succeeds_when_acknowledged_witness :
  responsive ack_slave bus 1
  /\ always_acks ack_slave bus
  /\ exists r' h',
      run_transaction RepeatedStart ack_slave 1 bus 0x0B [0x0D] [7] []
      = Some ((None, r'), h')
      /\ List.length r' = List.length [7].
Proof.
  assert (Hresp : responsive ack_slave bus 1).
  { intros h. exists O. split; [lia|reflexivity]. }
  assert (Hack : always_acks ack_slave bus).
  { intros h b n. reflexivity. }
  split; [exact Hresp|]. split; [exact Hack|].
  apply (transaction_succeeds_when_acknowledged RepeatedStart ack_slave 1 bus
           0x0B [0x0D] [7] [] Hresp Hack).
  left. lia.
Defined.
